(** * python_hcl2: the Lark-tree-to-dict transformer (hcl2/transformer.py)

    A shallow embedding of [DictTransformer]: every rule handler is a
    function from the list of already transformed children to the value
    the handler returns.  Python exceptions are an explicit result type,
    [logging.warning] is a log threaded through [body], dictionaries are
    insertion-ordered association lists and the [attributes] set of
    [body] is a [gset string]. *)

From Stdlib Require Import ZArith String Ascii List Lia DecimalString.
From stdpp Require Import base decidable option list strings gmap.

Set Warnings "-register-all".


Local Open Scope Z_scope.

(** ** Python strings *)

Module Str.

(** Characters that have no readable literal. *)
Definition dquote : ascii := "034"%char.
Definition newline : ascii := "010"%char.
Definition tab : ascii := "009"%char.
Definition space : ascii := " "%char.

Definition quote : string := String dquote EmptyString.
Definition nl : string := String newline EmptyString.

Definition to_list (s : string) : list ascii := list_ascii_of_string s.
Definition of_list (l : list ascii) : string := string_of_list_ascii l.

Definition rev (s : string) : string := of_list (List.rev (to_list s)).

(** [len(s)] as a Python integer. *)
Definition len (s : string) : Z := Z.of_nat (String.length s).

(** [s.startswith(p)] and [s.endswith(p)]. *)
Definition startswith (p s : string) : bool := String.prefix p s.
Definition endswith (p s : string) : bool := String.prefix (rev p) (rev s).

Fixpoint drop (n : nat) (s : string) : string :=
  match n, s with
  | O, _ => s
  | S n', String _ s' => drop n' s'
  | S _, EmptyString => EmptyString
  end.

Fixpoint take (n : nat) (s : string) : string :=
  match n, s with
  | S n', String c s' => String c (take n' s')
  | _, _ => EmptyString
  end.

(** Python's normalisation of a slice bound against a length: a
    negative bound counts from the end, and both ends are clamped. *)
Definition clamp (n i : Z) : Z :=
  if i <? 0 then Z.max 0 (n + i) else Z.min i n.

(** [s[start:stop]] *)
Definition slice (start stop : Z) (s : string) : string :=
  let a := clamp (len s) start in
  let b := clamp (len s) stop in
  take (Z.to_nat (b - a)) (drop (Z.to_nat a) s).

(** [s[start:]] *)
Definition slice_from (start : Z) (s : string) : string :=
  drop (Z.to_nat (clamp (len s) start)) s.

(** [s.lstrip(chars)] *)
Fixpoint lstrip (chars : list ascii) (s : string) : string :=
  match s with
  | String c s' => if bool_decide (c ∈ chars) then lstrip chars s' else s
  | EmptyString => EmptyString
  end.

(** [s.rstrip(chars)] *)
Definition rstrip (chars : list ascii) (s : string) : string :=
  rev (lstrip chars (rev s)).

(** [s.split(sep)] for a one-character separator: never empty. *)
Fixpoint split (sep : ascii) (s : string) : list string :=
  match s with
  | EmptyString => [EmptyString]
  | String c s' =>
      if bool_decide (c = sep) then EmptyString :: split sep s'
      else match split sep s' with
           | h :: t => String c h :: t
           | [] => [String c EmptyString]
           end
  end.

(** [sep.join(parts)] *)
Fixpoint join (sep : string) (parts : list string) : string :=
  match parts with
  | [] => EmptyString
  | [p] => p
  | p :: rest => p +:+ sep +:+ join sep rest
  end.

End Str.

(** ** Values

    What a handler can receive as a child or return: the output values
    of the transformer, the [Attribute] named tuple built by [attribute]
    and lark's [Discard] sentinel.  A dict is the list of its items in
    insertion order; a float is carried by its IEEE-754 bit pattern. *)

Inductive value : Type :=
| VNone
| VBool (b : bool)
| VInt (n : Z)
| VFloat (bits : Z)
| VStr (s : string)
| VList (xs : list value)
| VDict (items : list (string * value))
| VAttribute (key : string) (val : value)
| VDiscard.

Abbreviation dict := (list (string * value)).

(** ** Exceptions *)

Inductive exn : Type :=
| RuntimeError (msg : string)
| IndexError
| AttributeError
| TypeError
| ValueError.

Inductive res (A : Type) : Type :=
| Ok (a : A)
| Raise (e : exn).
Arguments Ok {A} a.
Arguments Raise {A} e.

(** ** Quote helpers (transformer.py, lines 272-285) *)

Definition is_quoted (s : string) : bool :=
  Str.startswith Str.quote s && Str.endswith Str.quote s.

Definition to_string_dollar (v : value) : value :=
  match v with
  | VStr s =>
      if is_quoted s then VStr (Str.slice 1 (-1) s)
      else VStr ("${" +:+ s +:+ "}")
  | _ => v
  end.

Definition strip_quotes (v : value) : value :=
  match v with
  | VStr s => if is_quoted s then VStr (Str.slice 1 (-1) s) else v
  | _ => v
  end.

(** ** Dictionaries

    A Python [dict] keeps its items in insertion order; assigning to a
    key that is present replaces the value where it stands. *)

Fixpoint dict_get (key : string) (d : dict) : option value :=
  match d with
  | [] => None
  | (k, v) :: rest => if bool_decide (k = key) then Some v else dict_get key rest
  end.

(** [key in d] *)
Definition dict_mem (key : string) (d : dict) : bool :=
  match dict_get key d with Some _ => true | None => false end.

(** [d[key] = v] *)
Fixpoint dict_set (key : string) (v : value) (d : dict) : dict :=
  match d with
  | [] => [(key, v)]
  | (k, w) :: rest =>
      if bool_decide (k = key) then (k, v) :: rest
      else (k, w) :: dict_set key v rest
  end.

(** [list(d)]: the keys, in insertion order. *)
Definition dict_keys (d : dict) : list string := d.*1.

(** ** Lists: [l[start:stop]] *)

Definition list_slice {A : Type} (start stop : Z) (l : list A) : list A :=
  let n := Z.of_nat (length l) in
  let a := Str.clamp n start in
  let b := Str.clamp n stop in
  take (Z.to_nat (b - a)) (drop (Z.to_nat a) l).

(** ** Children filtering (transformer.py, lines 265-270)

    [arg != "\n" and arg is not Discard]: only a string can be equal to
    the newline string. *)

Definition is_new_line_token (arg : value) : bool :=
  match arg with
  | VStr s => bool_decide (s = Str.nl)
  | _ => false
  end.

Definition is_discard (arg : value) : bool :=
  match arg with
  | VDiscard => true
  | _ => false
  end.

Definition strip_new_line_tokens (args : list value) : list value :=
  List.filter (fun arg => negb (is_new_line_token arg) && negb (is_discard arg)) args.

(** [args[i]] *)
Definition arg_at (i : nat) (args : list value) : res value :=
  match args !! i with
  | Some v => Ok v
  | None => Raise IndexError
  end.

(** ** [str()]

    [str] is the identity on strings (lark tokens are strings too) and
    prints [None], booleans and integers in the usual way.  What the
    built-in prints for the remaining objects (floats, lists, dicts,
    named tuples, the [Discard] object) is a parameter of the model. *)

Section Builtins.

Variable py_repr : value -> string.

Definition py_str (v : value) : string :=
  match v with
  | VStr s => s
  | VNone => "None"
  | VBool true => "True"
  | VBool false => "False"
  | VInt n => NilZero.string_of_int (Z.to_int n)
  | _ => py_repr v
  end.

(** ** Rules that rebuild or wrap their children *)

(** [tuple] (lines 90-91) *)
Definition tuple (args : list value) : value :=
  VList (List.map to_string_dollar (strip_new_line_tokens args)).

(** [object_elem] (lines 93-99).  The de-quoted key becomes a dict key;
    the grammar makes it an identifier or a string, and a dict keyed by
    anything else is outside [Dict[str, Any]]. *)
Definition object_elem (args : list value) : res value :=
  match arg_at 0 args with
  | Raise e => Raise e
  | Ok a0 =>
      match arg_at 1 args with
      | Raise e => Raise e
      | Ok a1 =>
          match strip_quotes a0 with
          | VStr key => Ok (VDict [(key, to_string_dollar a1)])
          | _ => Raise TypeError
          end
      end
  end.

(** [attribute] (lines 140-145) *)
Definition attribute (args : list value) : res value :=
  match arg_at 0 args with
  | Raise e => Raise e
  | Ok a0 =>
      let key := py_str a0 in
      let key := if is_quoted key then Str.slice 1 (-1) key else key in
      match arg_at 1 args with
      | Raise e => Raise e
      | Ok a1 => Ok (VAttribute key (to_string_dollar a1))
      end
  end.

(** [for_tuple_expr] and [for_object_expr] (lines 244-263).  In the
    f-string of [for_object_expr] the outer doubled braces are the
    escape for one literal brace each. *)
Definition for_tuple_expr (args : list value) : value :=
  let args := strip_new_line_tokens args in
  let for_expr := Str.join " " (List.map py_str (list_slice 1 (-1) args)) in
  VStr ("[" +:+ for_expr +:+ "]").

Definition for_object_expr (args : list value) : value :=
  let args := strip_new_line_tokens args in
  let for_expr := Str.join " " (List.map py_str (list_slice 1 (-1) args)) in
  VStr ("{" +:+ for_expr +:+ "}").

End Builtins.

(** ** [block] (lines 121-138) *)

Definition START_LINE : string := "__start_line__".
Definition END_LINE : string := "__end_line__".

Record Meta : Type := { line : Z; end_line : Z }.

(** [*block_labels, block_body = args] *)
Definition unpack_last (args : list value) : res (list value * value) :=
  match List.rev args with
  | [] => Raise ValueError
  | block_body :: rev_labels => Ok (List.rev rev_labels, block_body)
  end.

(** [result.update({START_LINE: ..., END_LINE: ...})] on the body. *)
Definition add_line_meta (meta : Meta) (block_body : value) : res value :=
  match block_body with
  | VDict d =>
      Ok (VDict (dict_set END_LINE (VInt (end_line meta))
                   (dict_set START_LINE (VInt (line meta)) d)))
  | _ => Raise AttributeError
  end.

(** One turn of the label loop: [result = {strip_quotes(label): result}].
    Labels are identifiers or string tokens. *)
Definition wrap_label (acc : res value) (label : value) : res value :=
  match acc with
  | Raise e => Raise e
  | Ok result =>
      match strip_quotes label with
      | VStr label_str => Ok (VDict [(label_str, result)])
      | _ => Raise TypeError
      end
  end.

Definition block (with_meta : bool) (meta : Meta) (args : list value) : res value :=
  match unpack_last args with
  | Raise e => Raise e
  | Ok (block_labels, block_body) =>
      let result := if with_meta then add_line_meta meta block_body else Ok block_body in
      List.fold_left wrap_label (List.rev block_labels) result
  end.

(** ** [body] (lines 161-200)

    [logging.warning] appends to a log; a computation takes the log so
    far and gives back its outcome with the log extended, also when it
    raises. *)

Definition Logged (A : Type) : Type := list string -> res A * list string.

Definition ret {A : Type} (a : A) : Logged A := fun log => (Ok a, log).

Definition raise {A : Type} (e : exn) : Logged A := fun log => (Raise e, log).

Definition bind {A B : Type} (m : Logged A) (k : A -> Logged B) : Logged B :=
  fun log =>
    match m log with
    | (Ok a, log') => k a log'
    | (Raise e, log') => (Raise e, log')
    end.

Definition warning (msg : string) : Logged unit := fun log => (Ok tt, log ++ [msg]).

Notation "'do' x <- m ; k" := (bind m (fun x => k))
  (at level 10, x name, m at level 100, k at level 200).
Notation "m ;; k" := (bind m (fun _ => k))
  (at level 100, k at level 200, right associativity).

(** The two locals of the loop. *)
Record body_state : Type := BodyState {
  result : dict;
  attributes : gset string
}.

Definition attribute_warning (key : string) : string :=
  key +:+ " already defined in attribute, ignoring".

Definition block_warning (key : string) : string :=
  key +:+ " already defined in block, ignoring".

(** The [isinstance(arg, Attribute)] branch. *)
Definition body_attribute (key : string) (val : value) (st : body_state)
  : Logged body_state :=
  if dict_mem key (result st) then
    warning (attribute_warning key) ;; ret st
  else
    ret {| result := dict_set key val (result st);
           attributes := {[key]} ∪ attributes st |}.

(** One turn of [for key, value in arg.items()].  [result[key].append]
    exists only when the stored value is a list. *)
Definition body_block_item (key : string) (val : value) (st : body_state)
  : Logged body_state :=
  if dict_mem key (result st) then
    if bool_decide (key ∈ attributes st) then
      warning (block_warning key) ;; ret st
    else
      match dict_get key (result st) with
      | Some (VList elems) =>
          ret {| result := dict_set key (VList (elems ++ [val])) (result st);
                 attributes := attributes st |}
      | _ => raise AttributeError
      end
  else
    ret {| result := dict_set key (VList [val]) (result st);
           attributes := attributes st |}.

Fixpoint body_block_items (items : dict) (st : body_state) : Logged body_state :=
  match items with
  | [] => ret st
  | (key, val) :: rest =>
      do st' <- body_block_item key val st ; body_block_items rest st'
  end.

(** One turn of [for arg in args]: only a dict has [items()]. *)
Definition body_arg (arg : value) (st : body_state) : Logged body_state :=
  match arg with
  | VAttribute key val => body_attribute key val st
  | VDict items => body_block_items items st
  | _ => raise AttributeError
  end.

Fixpoint body_loop (args : list value) (st : body_state) : Logged body_state :=
  match args with
  | [] => ret st
  | arg :: rest => do st' <- body_arg arg st ; body_loop rest st'
  end.

Definition body (args : list value) : Logged value :=
  do st <- body_loop (strip_new_line_tokens args)
             {| result := []; attributes := ∅ |} ;
  ret (VDict (result st)).

(** ** Heredocs (lines 12-13 and 209-239)

    The two compiled patterns differ in their literal prefix only, [<<]
    or [<<-]; then come group 1, [[a-zA-Z][a-zA-Z0-9._-]+], a newline,
    group 2, [[\s\S]*], and a back-reference to group 1.
    They are matched the way a backtracking engine does: a repetition
    first takes as many characters as it can and gives them back one by
    one while the rest of the pattern fails. *)

Definition in_range (lo hi c : ascii) : bool :=
  (nat_of_ascii lo <=? nat_of_ascii c)%nat && (nat_of_ascii c <=? nat_of_ascii hi)%nat.

(** [[a-zA-Z]] *)
Definition is_letter (c : ascii) : bool :=
  in_range "a" "z" c || in_range "A" "Z" c.

(** [[a-zA-Z0-9._-]] *)
Definition is_delimiter_char (c : ascii) : bool :=
  is_letter c || in_range "0" "9" c
  || bool_decide (c = "."%char) || bool_decide (c = "_"%char)
  || bool_decide (c = "-"%char).

(** [[\s\S]] *)
Definition any_char (c : ascii) : bool := true.

(** [X*] for a character class [X], followed by the rest of the pattern
    [k], which receives the text taken and the text left. *)
Fixpoint re_star {R : Type} (class : ascii -> bool) (s : string)
  (k : string -> string -> option R) : option R :=
  match s with
  | String c s' =>
      if class c then
        match re_star class s' (fun taken left => k (String c taken) left) with
        | Some r => Some r
        | None => k EmptyString s
        end
      else k EmptyString s
  | EmptyString => k EmptyString s
  end.

(** [X+] *)
Definition re_plus {R : Type} (class : ascii -> bool) (s : string)
  (k : string -> string -> option R) : option R :=
  match s with
  | String c s' =>
      if class c then re_star class s' (fun taken left => k (String c taken) left)
      else None
  | EmptyString => None
  end.

(** A literal at the head of the text: what follows it, if it is there. *)
Fixpoint re_literal (lit s : string) : option string :=
  match lit, s with
  | EmptyString, _ => Some s
  | String a lit', String b s' => if bool_decide (a = b) then re_literal lit' s' else None
  | String _ _, EmptyString => None
  end.

(** [re.match] of one of the two patterns: groups 1 and 2. *)
Definition heredoc_match (opening : string) (token : string) : option (string * string) :=
  match re_literal opening token with
  | Some (String c s1) =>
      if is_letter c then
        re_plus is_delimiter_char s1 (fun taken s2 =>
          let group1 := String c taken in
          match re_literal Str.nl s2 with
          | Some s3 =>
              re_star any_char s3 (fun group2 s4 =>
                match re_literal group1 s4 with
                | Some _ => Some (group1, group2)
                | None => None
                end)
          | None => None
          end)
      else None
  | _ => None
  end.

Definition HEREDOC_PATTERN : string -> option (string * string) := heredoc_match "<<".
Definition HEREDOC_TRIM_PATTERN : string -> option (string * string) := heredoc_match "<<-".

Definition trim_chars : list ascii := [Str.newline; Str.tab; Str.space].

(** [sys.maxsize] of a 64-bit CPython. *)
Definition sys_maxsize : Z := 9223372036854775807.

(** [len(line) - len(line.lstrip(" "))] *)
Definition leading_spaces (line : string) : Z :=
  Str.len line - Str.len (Str.lstrip [Str.space] line).

Definition min_leading_spaces (lines : list string) : Z :=
  List.fold_left (fun min_spaces line => Z.min min_spaces (leading_spaces line))
    lines sys_maxsize.

Section Heredoc.

Variable py_repr : value -> string.

Definition heredoc_template (args : list value) : res value :=
  match arg_at 0 args with
  | Raise e => Raise e
  | Ok a0 =>
      match HEREDOC_PATTERN (py_str py_repr a0) with
      | None => Raise (RuntimeError ("Invalid Heredoc token: " +:+ py_str py_repr a0))
      | Some (_, group2) =>
          Ok (VStr (Str.quote +:+ Str.rstrip trim_chars group2 +:+ Str.quote))
      end
  end.

Definition heredoc_template_trim (args : list value) : res value :=
  match arg_at 0 args with
  | Raise e => Raise e
  | Ok a0 =>
      match HEREDOC_TRIM_PATTERN (py_str py_repr a0) with
      | None => Raise (RuntimeError ("Invalid Heredoc token: " +:+ py_str py_repr a0))
      | Some (_, group2) =>
          let text := Str.rstrip trim_chars group2 in
          let lines := Str.split Str.newline text in
          let min_spaces := min_leading_spaces lines in
          let lines := List.map (Str.slice_from min_spaces) lines in
          Ok (VStr (Str.quote +:+ Str.join Str.nl lines +:+ Str.quote))
      end
  end.

End Heredoc.

(** ** The remaining rules

    Sequencing of computations that can raise. *)

Definition and_then {A B : Type} (m : res A) (k : A -> res B) : res B :=
  match m with
  | Ok a => k a
  | Raise e => Raise e
  end.

Notation "'let?' x := m 'in' k" := (and_then m (fun x => k))
  (at level 10, x name, m at level 100, k at level 200).

(** [v == s] for a string [s]: only a string is equal to a string. *)
Definition str_eq (v : value) (s : string) : bool :=
  match v with
  | VStr t => bool_decide (t = s)
  | _ => false
  end.

(** [for x in v]: the elements of a list, the characters of a string,
    the keys of a dict, the two fields of an [Attribute]. *)
Definition py_iter (v : value) : res (list value) :=
  match v with
  | VList xs => Ok xs
  | VStr s => Ok (List.map (fun c => VStr (String c EmptyString)) (Str.to_list s))
  | VDict items => Ok (List.map (fun kv => VStr kv.1) items)
  | VAttribute key val => Ok [VStr key; val]
  | VNone | VBool _ | VInt _ | VFloat _ | VDiscard => Raise TypeError
  end.

(** [new_line_and_or_comma] (lines 118-119), [new_line_or_comment]
    (lines 241-242) and [arguments] (lines 115-116). *)
Definition new_line_and_or_comma (args : list value) : value := VDiscard.
Definition new_line_or_comment (args : list value) : value := VDiscard.
Definition arguments (args : list value) : value := VList args.

(** [expr_term] (lines 45-60) *)
Definition expr_term (args : list value) : res value :=
  let args := strip_new_line_tokens args in
  let? a0 := arg_at 0 args in
  if str_eq a0 "true" then Ok (VBool true)
  else if str_eq a0 "false" then Ok (VBool false)
  else if str_eq a0 "null" then Ok VNone
  else if str_eq a0 "(" then arg_at 1 args
  else Ok a0.

(** [start] (lines 202-204) *)
Definition start (args : list value) : res value :=
  arg_at 0 (strip_new_line_tokens args).

Section Reconstruction.

Variable py_repr : value -> string.

Local Abbreviation str := (py_str py_repr).

(** [f"{args[0]}{args[1]}"] *)
Definition concat_two (args : list value) : res value :=
  let? a0 := arg_at 0 args in
  let? a1 := arg_at 1 args in
  Ok (VStr (str a0 +:+ str a1)).

(** Postfix forms (lines 62-88) *)
Definition index_expr_term (args : list value) : res value :=
  concat_two (strip_new_line_tokens args).

Definition index (args : list value) : res value :=
  let? a0 := arg_at 0 (strip_new_line_tokens args) in
  Ok (VStr ("[" +:+ str a0 +:+ "]")).

Definition get_attr_expr_term (args : list value) : res value := concat_two args.

Definition get_attr (args : list value) : res value :=
  let? a0 := arg_at 0 args in
  Ok (VStr ("." +:+ str a0)).

Definition attr_splat_expr_term (args : list value) : res value := concat_two args.

Definition attr_splat (args : list value) : value :=
  VStr (".*" +:+ Str.join EmptyString (List.map str args)).

Definition full_splat_expr_term (args : list value) : res value := concat_two args.

Definition full_splat (args : list value) : value :=
  VStr ("[*]" +:+ Str.join EmptyString (List.map str args)).

(** [function_call] (lines 108-113) *)
Definition function_call (args : list value) : res value :=
  let args := strip_new_line_tokens args in
  let? args_str :=
    if (1 <? length args)%nat then
      let? a1 := arg_at 1 args in
      let? elems := py_iter a1 in
      Ok (Str.join ", "
            (List.map str (List.filter (fun arg => negb (is_discard arg)) elems)))
    else Ok EmptyString in
  let? a0 := arg_at 0 args in
  Ok (VStr (str a0 +:+ "(" +:+ args_str +:+ ")")).

(** [conditional] (lines 147-149) *)
Definition conditional (args : list value) : res value :=
  let args := strip_new_line_tokens args in
  let? a0 := arg_at 0 args in
  let? a1 := arg_at 1 args in
  let? a2 := arg_at 2 args in
  Ok (VStr (str a0 +:+ " ? " +:+ str a1 +:+ " : " +:+ str a2)).

(** Operators (lines 151-159 and 206-207) *)
Definition binary_op (args : list value) : value :=
  VStr (Str.join " " (List.map str args)).

Definition unary_op (args : list value) : value :=
  VStr (Str.join EmptyString (List.map str args)).

Definition binary_term (args : list value) : value :=
  VStr (Str.join " " (List.map str (strip_new_line_tokens args))).

Definition binary_operator (args : list value) : res value :=
  let? a0 := arg_at 0 args in Ok (VStr (str a0)).



(** [identifier] (lines 287-292) *)
Definition identifier (args : list value) : res value :=
  let? a0 := arg_at 0 args in Ok (VStr (str a0)).

End Reconstruction.

(** ** [object] (lines 101-106)

    [result.update(arg)] merges a dict item by item.  Any other argument
    is read as a sequence of pairs, each pair a sequence of length two
    whose first element becomes the key.  A key that is not a string
    has no place in the dicts of this model: the outcome is [None]. *)

Fixpoint hashable (v : value) : bool :=
  match v with
  | VList _ | VDict _ => false
  | VAttribute _ val => hashable val
  | _ => true
  end.

Definition update_pair (d : dict) (elem : value) : option (res dict) :=
  match py_iter elem with
  | Raise _ => Some (Raise TypeError)
  | Ok [VStr key; v] => Some (Ok (dict_set key v d))
  | Ok [k; _] => if hashable k then None else Some (Raise TypeError)
  | Ok _ => Some (Raise ValueError)
  end.

Fixpoint update_pairs (d : dict) (elems : list value) : option (res dict) :=
  match elems with
  | [] => Some (Ok d)
  | elem :: rest =>
      match update_pair d elem with
      | Some (Ok d') => update_pairs d' rest
      | other => other
      end
  end.

Definition update_items (d : dict) (items : dict) : dict :=
  List.fold_left (fun d kv => dict_set kv.1 kv.2 d) items d.

Definition dict_update (d : dict) (arg : value) : option (res dict) :=
  match arg with
  | VDict items => Some (Ok (update_items d items))
  | _ =>
      match py_iter arg with
      | Raise _ => Some (Raise TypeError)
      | Ok elems => update_pairs d elems
      end
  end.

Fixpoint object_loop (args : list value) (result : dict) : option (res dict) :=
  match args with
  | [] => Some (Ok result)
  | arg :: rest =>
      match dict_update result arg with
      | Some (Ok result') => object_loop rest result'
      | other => other
      end
  end.

Definition object (args : list value) : option (res value) :=
  match object_loop (strip_new_line_tokens args) [] with
  | Some (Ok result) => Some (Ok (VDict result))
  | Some (Raise e) => Some (Raise e)
  | None => None
  end.

(** ** Vocabulary of the statements

    These definitions are not part of the transformer: they say in the
    specification's words what the theorems below compare the code
    with. *)

(** A label with one layer of enclosing double quotes removed. *)
Definition dequote (label : string) : string :=
  if is_quoted label then Str.slice 1 (-1) label else label.

(** [nest [l1; ...; ln] inner] is [{l1: {... {ln: inner}}}]. *)
Fixpoint nest (labels : list string) (inner : value) : value :=
  match labels with
  | [] => inner
  | label :: rest => VDict [(label, nest rest inner)]
  end.

(** The number of space characters a line starts with. *)
Fixpoint count_leading_spaces (line : string) : nat :=
  match line with
  | String c rest => if bool_decide (c = Str.space) then S (count_leading_spaces rest) else O
  | EmptyString => O
  end.


(** Every character of a text is in a class. *)
Definition all_in (class : ascii -> bool) (s : string) : bool :=
  forallb class (Str.to_list s).

(** A heredoc delimiter as the patterns accept it: a letter followed by
    at least one more character of the delimiter alphabet. *)
Definition valid_delimiter (delim : string) : bool :=
  match delim with
  | String c (String c' rest) =>
      is_letter c && is_delimiter_char c' && all_in is_delimiter_char rest
  | _ => false
  end.

(** What a child of a body contributes, in source order: an attribute
    contributes itself, a block contributes the items of its dict. *)
Inductive entry : Type :=
| EAttr (key : string) (val : value)
| EBlock (key : string) (val : value).

Definition entry_key (e : entry) : string :=
  match e with
  | EAttr key _ => key
  | EBlock key _ => key
  end.

Definition entries_of (arg : value) : list entry :=
  match arg with
  | VAttribute key val => [EAttr key val]
  | VDict items => List.map (fun kv => EBlock kv.1 kv.2) items
  | _ => []
  end.

Definition entries (args : list value) : list entry :=
  List.flat_map entries_of (strip_new_line_tokens args).

(** A child that [body] can take: an attribute, a block's dict, or one
    of the tokens it filters out. *)
Definition is_body_child (arg : value) : bool :=
  match arg with
  | VAttribute _ _ | VDict _ | VDiscard => true
  | VStr s => bool_decide (s = Str.nl)
  | _ => false
  end.

(** The values of the blocks with a given key, in source order. *)
Fixpoint block_values (key : string) (es : list entry) : list value :=
  match es with
  | [] => []
  | EBlock k v :: rest =>
      if bool_decide (k = key) then v :: block_values key rest
      else block_values key rest
  | EAttr _ _ :: rest => block_values key rest
  end.

(** How many attributes, and how many blocks, have a given key. *)
Fixpoint count_attributes (key : string) (es : list entry) : nat :=
  match es with
  | [] => O
  | EAttr k _ :: rest =>
      if bool_decide (k = key) then S (count_attributes key rest)
      else count_attributes key rest
  | EBlock _ _ :: rest => count_attributes key rest
  end.

Definition count_blocks (key : string) (es : list entry) : nat :=
  length (block_values key es).

(** How often a message stands in the log. *)
Definition occurrences (msg : string) (log : list string) : nat :=
  length (List.filter (fun m => bool_decide (m = msg)) log).

(** The keys of the attributes of a body. *)
Fixpoint attribute_keys (es : list entry) : list string :=
  match es with
  | [] => []
  | EAttr k _ :: rest => k :: attribute_keys rest
  | EBlock _ _ :: rest => attribute_keys rest
  end.

(** The two nested loops of [body] as one loop over the entries. *)
Definition body_entry (e : entry) (st : body_state) : Logged body_state :=
  match e with
  | EAttr key val => body_attribute key val st
  | EBlock key val => body_block_item key val st
  end.

Fixpoint body_entries (es : list entry) (st : body_state) : Logged body_state :=
  match es with
  | [] => ret st
  | e :: rest => do st' <- body_entry e st ; body_entries rest st'
  end.

(** What [body] holds about one key at some point of its loop: the
    value stored under the key, whether the key is in [attributes], and
    how many warnings of each kind were logged about it. *)
Record key_view : Type := KeyView {
  stored : option value;
  is_attribute : bool;
  attribute_warnings : nat;
  block_warnings : nat
}.

Definition view_of (key : string) (st : body_state) (log : list string) : key_view :=
  {| stored := dict_get key (result st);
     is_attribute := bool_decide (key ∈ attributes st);
     attribute_warnings := occurrences (attribute_warning key) log;
     block_warnings := occurrences (block_warning key) log |}.

Definition empty_view : key_view :=
  {| stored := None; is_attribute := false;
     attribute_warnings := 0; block_warnings := 0 |}.

(** What an entry with the key does to the view of that key. *)
Definition key_step (e : entry) (kv : key_view) : key_view :=
  match e, stored kv with
  | EAttr _ val, None =>
      {| stored := Some val; is_attribute := true;
         attribute_warnings := attribute_warnings kv;
         block_warnings := block_warnings kv |}
  | EAttr _ _, Some _ =>
      {| stored := stored kv; is_attribute := is_attribute kv;
         attribute_warnings := S (attribute_warnings kv);
         block_warnings := block_warnings kv |}
  | EBlock _ val, None =>
      {| stored := Some (VList [val]); is_attribute := is_attribute kv;
         attribute_warnings := attribute_warnings kv;
         block_warnings := block_warnings kv |}
  | EBlock _ val, Some old =>
      if is_attribute kv then
        {| stored := stored kv; is_attribute := true;
           attribute_warnings := attribute_warnings kv;
           block_warnings := S (block_warnings kv) |}
      else
        match old with
        | VList elems =>
            {| stored := Some (VList (elems ++ [val])); is_attribute := false;
               attribute_warnings := attribute_warnings kv;
               block_warnings := block_warnings kv |}
        | _ => kv
        end
  end.

Definition key_run (key : string) (es : list entry) (kv : key_view) : key_view :=
  List.fold_left
    (fun kv e => if bool_decide (entry_key e = key) then key_step e kv else kv)
    es kv.

(** What the loop of [body] maintains: a value stored under a key that
    is not an attribute key is a list. *)
Definition body_inv (st : body_state) : Prop :=
  forall key v,
    dict_get key (result st) = Some v -> key ∉ attributes st ->
    exists elems, v = VList elems.

(** The first entry with a given key. *)
Fixpoint first_entry (key : string) (es : list entry) : option entry :=
  match es with
  | [] => None
  | e :: rest =>
      if bool_decide (entry_key e = key) then Some e else first_entry key rest
  end.

(** The warning that an entry gets when it comes after the entries
    [seen]: an attribute whose key was seen, a block whose key was first
    seen on an attribute. *)
Definition warning_for (seen : list entry) (e : entry) : list string :=
  match e, first_entry (entry_key e) seen with
  | _, None => []
  | EAttr key _, Some _ => [attribute_warning key]
  | EBlock key _, Some (EAttr _ _) => [block_warning key]
  | EBlock _ _, Some (EBlock _ _) => []
  end.

Fixpoint warnings_from (seen es : list entry) : list string :=
  match es with
  | [] => []
  | e :: rest => warning_for seen e ++ warnings_from (seen ++ [e]) rest
  end.

(** The keys of a list in the order in which they first occur: a key
    is added at the end unless it is there. *)
Definition keys_step (acc : list string) (key : string) : list string :=
  if bool_decide (key ∈ acc) then acc else acc ++ [key].

Definition first_occurrences (keys : list string) : list string :=
  List.fold_left keys_step keys [].

(** The blocks of a given type among blocks given by type, labels and
    body: each one's body inside its labels, in source order. *)
Definition labelled_bodies (type : string)
    (blocks : list (string * list string * value)) : list value :=
  List.map (fun b => nest (List.map dequote b.1.2) b.2)
    (List.filter (fun b => bool_decide (dequote b.1.1 = type)) blocks).

(** * Properties *)

(** ** Strings as lists of characters *)

Lemma app_nil_str (t : string) : EmptyString +:+ t = t.
Proof. reflexivity. Qed.

Lemma app_cons_str (c : ascii) (s t : string) : String c s +:+ t = String c (s +:+ t).
Proof. reflexivity. Qed.

Ltac str_simpl := rewrite ?app_cons_str, ?app_nil_str; simpl.

Section StringFacts.

Implicit Types (s t p : string) (l : list ascii).

Lemma to_list_of_list l : Str.to_list (Str.of_list l) = l.
Proof. apply list_ascii_of_string_of_list_ascii. Qed.

Lemma of_list_to_list s : Str.of_list (Str.to_list s) = s.
Proof. apply string_of_list_ascii_of_string. Qed.

Lemma to_list_inj s t : Str.to_list s = Str.to_list t -> s = t.
Proof.
  intros H. rewrite <- (of_list_to_list s), <- (of_list_to_list t). by rewrite H.
Qed.

Lemma to_list_app s t : Str.to_list (s +:+ t) = Str.to_list s ++ Str.to_list t.
Proof. induction s as [|c s IH]; str_simpl; [done | by rewrite IH]. Qed.

Lemma of_list_app l1 l2 : Str.of_list (l1 ++ l2) = Str.of_list l1 +:+ Str.of_list l2.
Proof. induction l1 as [|c l1 IH]; simpl; [done | by rewrite IH]. Qed.


Lemma app_empty_r s : s +:+ EmptyString = s.
Proof. induction s as [|c s IH]; str_simpl; [done | by rewrite IH]. Qed.

Lemma app_assoc_str s t p : (s +:+ t) +:+ p = s +:+ (t +:+ p).
Proof. induction s as [|c s IH]; str_simpl; [done | by rewrite IH]. Qed.

Lemma length_app_str s t : String.length (s +:+ t) = (String.length s + String.length t)%nat.
Proof. induction s as [|c s IH]; str_simpl; [done | by rewrite IH]. Qed.

Lemma to_list_rev s : Str.to_list (Str.rev s) = List.rev (Str.to_list s).
Proof. unfold Str.rev. apply to_list_of_list. Qed.

Lemma rev_app_str s t : Str.rev (s +:+ t) = Str.rev t +:+ Str.rev s.
Proof.
  apply to_list_inj.
  by rewrite to_list_rev, !to_list_app, !to_list_rev, rev_app_distr.
Qed.

Lemma rev_involutive_str s : Str.rev (Str.rev s) = s.
Proof.
  apply to_list_inj. by rewrite !to_list_rev, rev_involutive.
Qed.


Lemma prefix_app p s : String.prefix p (p +:+ s) = true.
Proof.
  induction p as [|c p IH]; str_simpl; [by destruct s |].
  destruct (ascii_dec c c); [done | congruence].
Qed.

Lemma prefix_inv p s : String.prefix p s = true -> exists r, s = p +:+ r.
Proof.
  revert s. induction p as [|c p IH]; intros s H.
  - by exists s.
  - destruct s as [|d s]; simpl in H; [done |].
    destruct (ascii_dec c d) as [->|]; [| done].
    destruct (IH _ H) as [r ->]. by exists r.
Qed.

Lemma take_app_str s t : Str.take (String.length s) (s +:+ t) = s.
Proof. induction s as [|c s IH]; str_simpl; [by destruct t | by rewrite IH]. Qed.

Lemma drop_app_str s t : Str.drop (String.length s) (s +:+ t) = t.
Proof. induction s as [|c s IH]; str_simpl; [done | by rewrite IH]. Qed.

(** [s[1:-1]] of a text between two characters is the text. *)
Lemma slice_inner a b t :
  Str.slice 1 (-1) (String a (t +:+ String b EmptyString)) = t.
Proof.
  unfold Str.slice, Str.clamp, Str.len. simpl String.length.
  rewrite length_app_str. simpl String.length.
  replace (1 <? 0) with false by done. replace (-1 <? 0) with true by done.
  replace (Z.to_nat (Z.min 1 (Z.of_nat (S (String.length t + 1))))) with 1%nat by lia.
  replace (Z.to_nat _) with (String.length t) by lia.
  simpl. apply take_app_str.
Qed.

(** The shape of the strings that pass the quoted-string test. *)
Lemma is_quoted_app t : is_quoted (Str.quote +:+ t +:+ Str.quote) = true.
Proof.
  unfold is_quoted, Str.startswith, Str.endswith.
  rewrite prefix_app. simpl andb.
  rewrite !rev_app_str. replace (Str.rev Str.quote) with Str.quote by done.
  rewrite app_assoc_str. apply prefix_app.
Qed.

Lemma is_quoted_inv s :
  is_quoted s = true -> s = Str.quote \/ exists t, s = Str.quote +:+ t +:+ Str.quote.
Proof.
  unfold is_quoted, Str.startswith, Str.endswith. intros [H1 H2]%andb_true_iff.
  apply prefix_inv in H1 as [r ->]. apply prefix_inv in H2 as [r' H2].
  apply (f_equal Str.rev) in H2. rewrite rev_involutive_str, rev_app_str in H2.
  replace (Str.rev (Str.rev Str.quote)) with Str.quote in H2 by done.
  unfold Str.quote in *. rewrite app_cons_str, app_nil_str in H2.
  destruct (Str.rev r') as [|c u]; rewrite ?app_cons_str, ?app_nil_str in H2.
  - left. by injection H2 as ->.
  - right. injection H2 as -> ->. by exists u.
Qed.

End StringFacts.

(** ** The quote helpers *)

(** C6: [to_string_dollar] strips one layer of quotes from a string that
    starts and ends with a double quote, wraps every other string [s] as
    [${s}] and returns a value that is not a string unchanged; the
    attribute, tuple and object-element rules apply it to their values. *)
Theorem to_string_dollar_cases :
  (forall t, to_string_dollar (VStr (Str.quote +:+ t +:+ Str.quote)) = VStr t)
  /\ (forall s, is_quoted s = true ->
        to_string_dollar (VStr s) = VStr (Str.slice 1 (-1) s)
        /\ (s = Str.quote \/ exists t, s = Str.quote +:+ t +:+ Str.quote))
  /\ (forall s, is_quoted s = false ->
        to_string_dollar (VStr s) = VStr ("${" +:+ s +:+ "}"))
  /\ (forall v, match v with VStr _ => True | _ => to_string_dollar v = v end)
  /\ (forall py_repr a0 a1 rest, exists key,
        attribute py_repr (a0 :: a1 :: rest) = Ok (VAttribute key (to_string_dollar a1)))
  /\ (forall args,
        tuple args = VList (List.map to_string_dollar (strip_new_line_tokens args)))
  /\ (forall a0 a1 rest key, strip_quotes a0 = VStr key ->
        object_elem (a0 :: a1 :: rest) = Ok (VDict [(key, to_string_dollar a1)])).
Proof.
  repeat split.
  - intros t. unfold to_string_dollar. rewrite is_quoted_app.
    f_equal. apply slice_inner.
  - unfold to_string_dollar. by rewrite H.
  - by apply is_quoted_inv.
  - intros s H. unfold to_string_dollar. by rewrite H.
  - by intros [].
  - intros py_repr a0 a1 rest. eexists. reflexivity.
  - intros a0 a1 rest key H. unfold object_elem. simpl. by rewrite H.
Qed.

Lemma to_string_dollar_cases_witness :
  to_string_dollar (VStr "foo.bar") = VStr "${foo.bar}"
  /\ to_string_dollar (VStr (Str.quote +:+ "abc" +:+ Str.quote)) = VStr "abc"
  /\ object_elem [VStr "k"; VStr "v"] = Ok (VDict [("k", VStr "${v}")]).
Proof.
  destruct to_string_dollar_cases as (Hq & _ & Hw & _ & _ & _ & Ho).
  split; [apply Hw; reflexivity |].
  split; [apply Hq |].
  apply (Ho (VStr "k") (VStr "v") [] "k"). reflexivity.
Defined.

(** C9: on the string made of one double quote, which is its own opening
    and closing quote, [strip_quotes] and [to_string_dollar] both return
    the empty string. *)
Theorem lone_quote_is_stripped :
  is_quoted Str.quote = true
  /\ strip_quotes (VStr Str.quote) = VStr EmptyString
  /\ to_string_dollar (VStr Str.quote) = VStr EmptyString.
Proof. repeat split. Qed.

(** ** For-expressions *)

Lemma list_slice_inner {A : Type} (first last : A) (mid : list A) :
  list_slice 1 (-1) (first :: mid ++ [last]) = mid.
Proof.
  unfold list_slice, Str.clamp. simpl length. rewrite length_app. simpl length.
  replace (1 <? 0) with false by done. replace (-1 <? 0) with true by done.
  replace (Z.to_nat (Z.min 1 (Z.of_nat (S (length mid + 1))))) with 1%nat by lia.
  replace (Z.to_nat _) with (length mid) by lia.
  simpl. rewrite drop_0. by rewrite take_app_length.
Qed.

(** C8, as the code has it: the text of a [for_object_expr] node is the
    space-joined inner children between one opening and one closing
    brace. *)
Theorem for_object_expr_single_braces py_repr args first mid last :
  strip_new_line_tokens args = first :: mid ++ [last] ->
  for_object_expr py_repr args
  = VStr ("{" +:+ Str.join " " (List.map (py_str py_repr) mid) +:+ "}").
Proof.
  intros H. unfold for_object_expr. by rewrite H, list_slice_inner.
Qed.

Lemma for_object_expr_single_braces_witness :
  for_object_expr (fun _ => EmptyString)
    [VStr "{"; VStr Str.nl; VStr "for k, v in m :"; VStr "k"; VStr "=>"; VInt 7; VDiscard; VStr "}"]
  = VStr "{for k, v in m : k => 7}".
Proof.
  apply (for_object_expr_single_braces _ _ (VStr "{")
           [VStr "for k, v in m :"; VStr "k"; VStr "=>"; VInt 7] (VStr "}")).
  reflexivity.
Defined.

(** C8, as stated, fails: this node's text starts with one brace. *)
Lemma for_object_expr_not_doubled :
  exists s,
    for_object_expr (fun _ => EmptyString)
      [VStr "{"; VStr "for k, v in m :"; VStr "k"; VStr "=>"; VStr "v"; VStr "}"]
    = VStr s
    /\ s = "{for k, v in m : k => v}"
    /\ Str.startswith "{{" s = false
    /\ Str.endswith "}}" s = false.
Proof. eexists. repeat split. Qed.

(** ** Blocks *)

Lemma unpack_last_snoc (labels : list value) (block_body : value) :
  unpack_last (labels ++ [block_body]) = Ok (labels, block_body).
Proof.
  unfold unpack_last. rewrite rev_app_distr. simpl. by rewrite rev_involutive.
Qed.

Lemma strip_quotes_label (label : string) :
  strip_quotes (VStr label) = VStr (dequote label).
Proof. unfold strip_quotes, dequote. by destruct (is_quoted label). Qed.

Lemma wrap_labels_nest (labels : list string) (inner : value) :
  List.fold_left wrap_label (List.rev (List.map VStr labels)) (Ok inner)
  = Ok (nest (List.map dequote labels) inner).
Proof.
  induction labels as [|label labels IH]; [done |].
  cbn [List.map List.rev]. rewrite fold_left_app, IH. cbn [fold_left wrap_label].
  by rewrite strip_quotes_label.
Qed.

(** C5: a block with labels [l1 ... ln] and a body returns the body map
    inside [n] nested one-key maps, outermost label first, each label
    without its enclosing quotes; in metadata mode the body map carries
    the two line keys.  Labels [a], [b] around [{x: 1}] give
    [{a: {b: {x: 1}}}]. *)
Theorem block_nests_labels :
  (forall meta labels block_body,
     block false meta (List.map VStr labels ++ [block_body])
     = Ok (nest (List.map dequote labels) block_body))
  /\ (forall meta labels items,
        block true meta (List.map VStr labels ++ [VDict items])
        = Ok (nest (List.map dequote labels)
                (VDict (dict_set END_LINE (VInt (end_line meta))
                          (dict_set START_LINE (VInt (line meta)) items)))))
  /\ (forall meta,
        block false meta
          [VStr "a"; VStr (Str.quote +:+ "b" +:+ Str.quote); VDict [("x", VInt 1)]]
        = Ok (VDict [("a", VDict [("b", VDict [("x", VInt 1)])])])).
Proof.
  repeat split.
  - intros meta labels block_body. unfold block.
    rewrite unpack_last_snoc. apply wrap_labels_nest.
  - intros meta labels items. unfold block.
    rewrite unpack_last_snoc. apply wrap_labels_nest.
Qed.

(** ** Heredocs *)

Lemma arg_at_head (a : value) (args : list value) : arg_at 0 (a :: args) = Ok a.
Proof. reflexivity. Qed.

(** After the opening, one character and a newline leave nothing for
    the second part of group 1. *)
Lemma heredoc_match_one_char (opening token : string) (c : ascii) (rest : string) :
  re_literal opening token = Some (String c (String Str.newline rest)) ->
  heredoc_match opening token = None.
Proof.
  intros H. unfold heredoc_match. rewrite H. by destruct (is_letter c).
Qed.

(** C10: a heredoc token whose delimiter is a single character matches
    neither pattern, so both heredoc rules raise the runtime error
    [Invalid Heredoc token], whatever follows the delimiter line. *)
Theorem heredoc_single_char_delimiter_raises py_repr (c : ascii) (rest : string)
    (more : list value) :
  heredoc_template py_repr (VStr ("<<" +:+ String c (Str.nl +:+ rest)) :: more)
  = Raise (RuntimeError ("Invalid Heredoc token: " +:+ "<<" +:+ String c (Str.nl +:+ rest)))
  /\ heredoc_template_trim py_repr (VStr ("<<-" +:+ String c (Str.nl +:+ rest)) :: more)
     = Raise (RuntimeError ("Invalid Heredoc token: " +:+ "<<-" +:+ String c (Str.nl +:+ rest))).
Proof.
  split.
  - unfold heredoc_template, HEREDOC_PATTERN. rewrite arg_at_head. cbn [py_str].
    by rewrite (heredoc_match_one_char "<<" _ c rest).
  - unfold heredoc_template_trim, HEREDOC_TRIM_PATTERN. rewrite arg_at_head. cbn [py_str].
    by rewrite (heredoc_match_one_char "<<-" _ c rest).
Qed.

(** *** The patterns on a well-formed token *)

Section Regex.

Context {R : Type}.
Implicit Types (k : string -> string -> option R) (class : ascii -> bool).

(** A repetition fails when the rest of the pattern fails after every
    run of the class at the head of the text. *)
Lemma re_star_none class s k :
  (forall taken left, s = taken +:+ left -> all_in class taken = true -> k taken left = None) ->
  re_star class s k = None.
Proof.
  revert k. induction s as [|c s IH]; intros k Hk; simpl.
  - by apply (Hk EmptyString EmptyString).
  - destruct (class c) eqn:Hc; [| by apply (Hk EmptyString (String c s))].
    rewrite IH; [by apply (Hk EmptyString (String c s)) |].
    intros taken left -> Hall. apply Hk; [done |].
    unfold all_in. simpl. by rewrite Hc.
Qed.

(** A repetition takes the longest run after which the rest matches. *)
Lemma re_star_longest class taken left k r :
  all_in class taken = true ->
  k taken left = Some r ->
  (forall u v, u <> EmptyString -> all_in class u = true -> left = u +:+ v ->
               k (taken +:+ u) v = None) ->
  re_star class (taken +:+ left) k = Some r.
Proof.
  revert k. induction taken as [|c taken IH]; intros k Hall Hk Hlonger.
  - rewrite app_nil_str. destruct left as [|c left]; simpl; [done |].
    destruct (class c) eqn:Hc; [| done].
    rewrite re_star_none; [done |].
    intros u v -> Hu. apply (Hlonger (String c u) v); [done | | done].
    unfold all_in. simpl. by rewrite Hc.
  - rewrite app_cons_str. simpl.
    unfold all_in in Hall. simpl in Hall. apply andb_true_iff in Hall as [Hc Hall].
    rewrite Hc. rewrite (IH (fun t l => k (String c t) l)); [done | done | done |].
    intros u v Hu Hcu ->. by apply (Hlonger u v).
Qed.

End Regex.

Lemma all_in_any_char (s : string) : all_in any_char s = true.
Proof. unfold all_in. by induction (Str.to_list s). Qed.

Lemma re_literal_app (lit s : string) : re_literal lit (lit +:+ s) = Some s.
Proof.
  induction lit as [|c lit IH]; [by destruct s |].
  rewrite app_cons_str. simpl. by rewrite bool_decide_eq_true_2.
Qed.

Lemma re_literal_refl (lit : string) : re_literal lit lit = Some EmptyString.
Proof. rewrite <- (app_empty_r lit) at 2. apply re_literal_app. Qed.

Lemma re_literal_short (lit s : string) :
  (String.length s < String.length lit)%nat -> re_literal lit s = None.
Proof.
  revert s. induction lit as [|c lit IH]; intros s H; simpl in *; [lia |].
  destruct s as [|d s]; [done |]. simpl in H.
  destruct (bool_decide (c = d)); [| done]. apply IH. lia.
Qed.

Lemma valid_delimiter_inv (delim : string) :
  valid_delimiter delim = true ->
  exists c c' rest,
    delim = String c (String c' rest)
    /\ is_letter c = true /\ is_delimiter_char c' = true
    /\ all_in is_delimiter_char rest = true.
Proof.
  destruct delim as [|c [|c' rest]]; [done | done |]. simpl.
  intros [[H1 H2]%andb_true_iff H3]%andb_true_iff. by exists c, c', rest.
Qed.

(** On [opening delim newline text delim] the groups are the delimiter
    and the text. *)
Lemma heredoc_match_well_formed (opening delim text : string) :
  valid_delimiter delim = true ->
  heredoc_match opening (opening +:+ delim +:+ Str.nl +:+ text +:+ delim)
  = Some (delim, text).
Proof.
  intros (c & c' & rest & -> & Hc & Hc' & Hrest)%valid_delimiter_inv.
  unfold heredoc_match. rewrite re_literal_app, !app_cons_str, Hc.
  unfold re_plus. rewrite Hc'.
  apply re_star_longest; [done | |].
  - rewrite re_literal_app.
    apply re_star_longest; [apply all_in_any_char | |].
    + cbv beta. by rewrite re_literal_refl.
    + intros u v Hu _ Huv. cbv beta. rewrite re_literal_short; [done |].
      rewrite Huv, length_app_str. destruct u; [done |]. simpl. lia.
  - intros u v Hu Hall Huv. destruct u as [|d u]; [done |].
    unfold Str.nl in Huv. rewrite !app_cons_str in Huv. injection Huv as <- _.
    by unfold all_in in Hall.
Qed.

(** *** Dedenting *)

Lemma length_lstrip_spaces (line : string) :
  String.length line
  = (count_leading_spaces line + String.length (Str.lstrip [Str.space] line))%nat.
Proof.
  induction line as [|c line IH]; [done |]. simpl.
  destruct (decide (c = Str.space)) as [->|Hne].
  - rewrite (bool_decide_eq_true_2 (_ ∈ _)) by apply list_elem_of_here.
    rewrite (bool_decide_eq_true_2 (_ = _)) by done.
    simpl. by rewrite IH at 1.
  - rewrite (bool_decide_eq_false_2 (_ ∈ _)) by by intros ->%list_elem_of_singleton.
    by rewrite (bool_decide_eq_false_2 (_ = _)) by done.
Qed.

Lemma leading_spaces_count (line : string) :
  leading_spaces line = Z.of_nat (count_leading_spaces line).
Proof.
  unfold leading_spaces, Str.len. rewrite (length_lstrip_spaces line) at 1. lia.
Qed.




Lemma split_cons (sep : ascii) (s : string) :
  exists first rest, Str.split sep s = first :: rest.
Proof.
  destruct s as [|c s]; simpl; [by eexists _, _ |].
  destruct (bool_decide (c = sep)); [by eexists _, _ |].
  destruct (Str.split sep s); by eexists _, _.
Qed.


(** The loop over the lines leaves the least count in [min_spaces],
    unless every count exceeds the initial value. *)
Lemma min_fold_spec (lines : list string) (acc : Z) :
  let m := List.fold_left
             (fun min_spaces line => Z.min min_spaces (leading_spaces line)) lines acc in
  m <= acc
  /\ (forall line, line ∈ lines -> m <= leading_spaces line)
  /\ (m = acc \/ exists line, line ∈ lines /\ m = leading_spaces line).
Proof.
  revert acc. induction lines as [|l lines IH]; intros acc; simpl.
  - split; [lia |]. split; [| by left]. by intros line H%elem_of_nil.
  - destruct (IH (Z.min acc (leading_spaces l))) as (H1 & H2 & H3).
    split; [lia |]. split.
    + intros line [->|H]%elem_of_cons; [lia | by apply H2].
    + destruct H3 as [H3|(line & Hin & H3)].
      * destruct (Z.min_spec acc (leading_spaces l)) as [[_ E]|[_ E]].
        -- left. lia.
        -- right. exists l. split; [apply list_elem_of_here | lia].
      * right. exists line. split; [by apply list_elem_of_further | done].
Qed.





(** The two examples of the specification. *)
Example heredoc_template_trim_hello_world :
  heredoc_template_trim (fun _ => EmptyString)
    [VStr ("<<-EOF" +:+ Str.nl +:+ "  hello" +:+ Str.nl +:+ "  world" +:+ Str.nl +:+ "EOF")]
  = Ok (VStr (Str.quote +:+ "hello" +:+ Str.nl +:+ "world" +:+ Str.quote)).
Proof. reflexivity. Qed.

Example heredoc_template_hello :
  heredoc_template (fun _ => EmptyString)
    [VStr ("<<EOF" +:+ Str.nl +:+ "hello" +:+ Str.nl +:+ "EOF")]
  = Ok (VStr (Str.quote +:+ "hello" +:+ Str.quote)).
Proof. reflexivity. Qed.

(** ** Bodies *)

(** *** Dictionaries *)

Lemma dict_get_set_eq (key : string) (v : value) (d : dict) :
  dict_get key (dict_set key v d) = Some v.
Proof.
  induction d as [|[k w] d IH]; simpl.
  - by rewrite bool_decide_eq_true_2.
  - case_bool_decide as Hk; simpl.
    + by rewrite bool_decide_eq_true_2.
    + by rewrite bool_decide_eq_false_2.
Qed.

Lemma dict_get_set_ne (key key' : string) (v : value) (d : dict) :
  key <> key' -> dict_get key' (dict_set key v d) = dict_get key' d.
Proof.
  intros Hne. induction d as [|[k w] d IH]; simpl.
  - by rewrite bool_decide_eq_false_2.
  - case_bool_decide as Hk; simpl.
    + subst k. by rewrite !bool_decide_eq_false_2.
    + by rewrite IH.
Qed.

Lemma dict_mem_true (key : string) (d : dict) :
  dict_mem key d = true <-> exists v, dict_get key d = Some v.
Proof.
  unfold dict_mem. destruct (dict_get key d); split; eauto; try done.
  by intros [? ?].
Qed.

Lemma dict_mem_false (key : string) (d : dict) :
  dict_mem key d = false <-> dict_get key d = None.
Proof. unfold dict_mem. by destruct (dict_get key d). Qed.

(** *** The two warnings *)

Lemma app_inv_tail_str (s t suffix : string) :
  s +:+ suffix = t +:+ suffix -> s = t.
Proof.
  intros H. apply (f_equal Str.to_list) in H. rewrite !to_list_app in H.
  apply app_inv_tail in H. by apply to_list_inj.
Qed.

Lemma attribute_warning_inj (key key' : string) :
  attribute_warning key = attribute_warning key' -> key = key'.
Proof. apply app_inv_tail_str. Qed.

Lemma block_warning_inj (key key' : string) :
  block_warning key = block_warning key' -> key = key'.
Proof. apply app_inv_tail_str. Qed.

Lemma attribute_warning_not_block (key key' : string) :
  attribute_warning key <> block_warning key'.
Proof.
  unfold attribute_warning, block_warning. intros H.
  apply (f_equal (fun s => Str.take 11 (Str.rev s))) in H.
  rewrite !rev_app_str in H. vm_compute in H. discriminate.
Qed.

Lemma occurrences_snoc_eq (msg : string) (log : list string) :
  occurrences msg (log ++ [msg]) = S (occurrences msg log).
Proof.
  unfold occurrences. rewrite List.filter_app, length_app. simpl.
  rewrite bool_decide_eq_true_2 by done. simpl. lia.
Qed.

Lemma occurrences_snoc_ne (msg msg' : string) (log : list string) :
  msg' <> msg -> occurrences msg (log ++ [msg']) = occurrences msg log.
Proof.
  intros H. unfold occurrences. rewrite List.filter_app, length_app. simpl.
  rewrite bool_decide_eq_false_2 by done. simpl. lia.
Qed.

(** *** One turn of the loop, seen from one key *)

Lemma view_of_eq (key : string) (st : body_state) (log : list string)
    (s : option value) (a : bool) (na nb : nat) :
  dict_get key (result st) = s ->
  bool_decide (key ∈ attributes st) = a ->
  occurrences (attribute_warning key) log = na ->
  occurrences (block_warning key) log = nb ->
  view_of key st log
  = {| stored := s; is_attribute := a; attribute_warnings := na; block_warnings := nb |}.
Proof. intros <- <- <- <-. reflexivity. Qed.

Lemma body_attribute_step (k : string) (v : value) (st : body_state)
    (log : list string) :
  body_inv st ->
  exists st' log',
    body_attribute k v st log = (Ok st', log')
    /\ body_inv st'
    /\ forall key,
         view_of key st' log'
         = if bool_decide (k = key) then key_step (EAttr k v) (view_of key st log)
           else view_of key st log.
Proof.
  intros Hinv. unfold body_attribute.
  destruct (dict_mem k (result st)) eqn:Hmem.
  - exists st, (log ++ [attribute_warning k]). split; [done |]. split; [done |].
    intros key. case_bool_decide as Hk.
    + subst key. apply dict_mem_true in Hmem as [w Hw].
      unfold key_step. cbn [stored view_of]. rewrite Hw.
      apply view_of_eq; [done | done | apply occurrences_snoc_eq |].
      apply occurrences_snoc_ne, attribute_warning_not_block.
    + apply view_of_eq; [done | done | |].
      * apply occurrences_snoc_ne. by intros E%attribute_warning_inj.
      * apply occurrences_snoc_ne, attribute_warning_not_block.
  - apply dict_mem_false in Hmem.
    eexists _, log. split; [done |]. split.
    + intros key w. cbn [result attributes]. intros Hget Hnot.
      assert (k <> key) by set_solver.
      rewrite dict_get_set_ne in Hget by done. apply (Hinv key w Hget). set_solver.
    + intros key. case_bool_decide as Hk.
      * subst key. unfold key_step. cbn [stored view_of]. rewrite Hmem.
        apply view_of_eq; cbn [result attributes]; [apply dict_get_set_eq | | done | done].
        apply bool_decide_eq_true_2. set_solver.
      * apply view_of_eq; cbn [result attributes]; [by apply dict_get_set_ne | | done | done].
        apply bool_decide_ext. rewrite elem_of_union, elem_of_singleton.
        split; [by intros [E|E] | by right].
Qed.

Lemma body_block_item_step (k : string) (v : value) (st : body_state)
    (log : list string) :
  body_inv st ->
  exists st' log',
    body_block_item k v st log = (Ok st', log')
    /\ body_inv st'
    /\ forall key,
         view_of key st' log'
         = if bool_decide (k = key) then key_step (EBlock k v) (view_of key st log)
           else view_of key st log.
Proof.
  intros Hinv. unfold body_block_item.
  destruct (dict_mem k (result st)) eqn:Hmem.
  - apply dict_mem_true in Hmem as [w Hw].
    case_bool_decide as Hattr.
    + exists st, (log ++ [block_warning k]). split; [done |]. split; [done |].
      intros key. case_bool_decide as Hk.
      * subst key. unfold key_step. cbn [stored is_attribute view_of]. rewrite Hw.
        rewrite bool_decide_eq_true_2 by done.
        apply view_of_eq; [done | by apply bool_decide_eq_true_2 | |].
        -- apply occurrences_snoc_ne. intros E. symmetry in E.
           by apply attribute_warning_not_block in E.
        -- apply occurrences_snoc_eq.
      * apply view_of_eq; [done | done | |].
        -- apply occurrences_snoc_ne. intros E. symmetry in E.
           by apply attribute_warning_not_block in E.
        -- apply occurrences_snoc_ne. by intros E%block_warning_inj.
    + destruct (Hinv k w Hw Hattr) as [elems ->]. rewrite Hw.
      eexists _, log. split; [done |]. split.
      * intros key w. cbn [result attributes]. intros Hget Hnot.
        destruct (decide (k = key)) as [<-|Hne].
        -- rewrite dict_get_set_eq in Hget. injection Hget as <-. by eexists.
        -- rewrite dict_get_set_ne in Hget by done. by apply (Hinv key w).
      * intros key. case_bool_decide as Hk.
        -- subst key. unfold key_step. cbn [stored is_attribute view_of]. rewrite Hw.
           rewrite bool_decide_eq_false_2 by done.
           apply view_of_eq; cbn [result attributes];
             [apply dict_get_set_eq | by apply bool_decide_eq_false_2 | done | done].
        -- apply view_of_eq; cbn [result attributes];
             [by apply dict_get_set_ne | done | done | done].
  - apply dict_mem_false in Hmem.
    eexists _, log. split; [done |]. split.
    + intros key w. cbn [result attributes]. intros Hget Hnot.
      destruct (decide (k = key)) as [<-|Hne].
      * rewrite dict_get_set_eq in Hget. injection Hget as <-. by eexists.
      * rewrite dict_get_set_ne in Hget by done. by apply (Hinv key w).
    + intros key. case_bool_decide as Hk.
      * subst key. unfold key_step. cbn [stored is_attribute view_of]. rewrite Hmem.
        apply view_of_eq; cbn [result attributes]; [apply dict_get_set_eq | done | done | done].
      * apply view_of_eq; cbn [result attributes];
          [by apply dict_get_set_ne | done | done | done].
Qed.

(** *** The whole loop *)

Lemma body_entries_run (es : list entry) (st : body_state) (log : list string) :
  body_inv st ->
  exists st' log',
    body_entries es st log = (Ok st', log')
    /\ body_inv st'
    /\ forall key, view_of key st' log' = key_run key es (view_of key st log).
Proof.
  revert st log. induction es as [|e es IH]; intros st log Hinv.
  - by exists st, log.
  - assert (Hstep : exists st1 log1,
               body_entry e st log = (Ok st1, log1)
               /\ body_inv st1
               /\ forall key,
                    view_of key st1 log1
                    = if bool_decide (entry_key e = key)
                      then key_step e (view_of key st log) else view_of key st log).
    { destruct e; [by apply body_attribute_step | by apply body_block_item_step]. }
    destruct Hstep as (st1 & log1 & Hrun1 & Hinv1 & Hview1).
    destruct (IH st1 log1 Hinv1) as (st2 & log2 & Hrun2 & Hinv2 & Hview2).
    exists st2, log2. split; [| split; [done |]].
    + cbn [body_entries]. unfold bind at 1. by rewrite Hrun1.
    + intros key. rewrite Hview2, Hview1. done.
Qed.

Lemma body_entries_app (es1 es2 : list entry) (st : body_state) (log : list string) :
  body_entries (es1 ++ es2) st log
  = bind (body_entries es1 st) (body_entries es2) log.
Proof.
  revert st log. induction es1 as [|e es1 IH]; intros st log; [reflexivity |].
  cbn [app body_entries]. unfold bind.
  destruct (body_entry e st log) as [[st1|err] log1]; [| done].
  rewrite IH. done.
Qed.

Lemma body_block_items_entries (items : dict) (st : body_state) (log : list string) :
  body_block_items items st log
  = body_entries (List.map (fun kv => EBlock kv.1 kv.2) items) st log.
Proof.
  revert st log. induction items as [|[k v] items IH]; intros st log; [done |].
  cbn [body_block_items List.map body_entries body_entry fst snd]. unfold bind.
  destruct (body_block_item k v st log) as [[st1|err] log1]; [| done].
  apply IH.
Qed.

(** On children that [body] can take, its loop is the loop over the
    entries. *)
Lemma body_loop_entries (args : list value) (st : body_state) (log : list string) :
  forallb is_body_child args = true ->
  body_loop (strip_new_line_tokens args) st log = body_entries (entries args) st log.
Proof.
  revert st log. induction args as [|arg args IH]; intros st log Hok; [done |].
  cbn [forallb] in Hok. apply andb_true_iff in Hok as [Harg Hok].
  unfold entries, strip_new_line_tokens in *.
  destruct arg; try discriminate Harg; cbn [List.filter is_new_line_token is_discard negb andb].
  - (* a string: the newline token *)
    cbn [is_body_child] in Harg. rewrite Harg. cbn [negb andb]. by apply IH.
  - (* a block *)
    cbn [flat_map entries_of body_loop body_arg].
    rewrite body_entries_app. unfold bind.
    rewrite body_block_items_entries.
    destruct (body_entries _ st log) as [[st1|err] log1]; [| done].
    by apply IH.
  - (* an attribute *)
    cbn [flat_map entries_of body_loop body_arg app body_entries body_entry].
    unfold bind.
    destruct (body_attribute key arg st log) as [[st1|err] log1]; [| done].
    by apply IH.
  - (* Discard *)
    by apply IH.
Qed.

Lemma body_inv_initial : body_inv {| result := []; attributes := ∅ |}.
Proof. intros key v H. discriminate H. Qed.

(** [body] returns a dict, and what it holds about every key is the
    run of that key's entries. *)
Lemma body_views (args : list value) :
  forallb is_body_child args = true ->
  exists st log,
    body args [] = (Ok (VDict (result st)), log)
    /\ forall key, view_of key st log = key_run key (entries args) empty_view.
Proof.
  intros Hok.
  destruct (body_entries_run (entries args) {| result := []; attributes := ∅ |} []
              body_inv_initial) as (st & log & Hrun & _ & Hview).
  exists st, log. split.
  - unfold body, bind. by rewrite body_loop_entries, Hrun.
  - intros key. by rewrite Hview.
Qed.

(** *** The life of one key *)

Lemma key_run_app (key : string) (es1 es2 : list entry) (kv : key_view) :
  key_run key (es1 ++ es2) kv = key_run key es2 (key_run key es1 kv).
Proof. unfold key_run. apply fold_left_app. Qed.

Lemma key_run_cons (key : string) (e : entry) (es : list entry) (kv : key_view) :
  key_run key (e :: es) kv
  = key_run key es (if bool_decide (entry_key e = key) then key_step e kv else kv).
Proof. reflexivity. Qed.

(** Entries with other keys leave the view alone. *)
Lemma key_run_absent (key : string) (es : list entry) (kv : key_view) :
  key ∉ List.map entry_key es -> key_run key es kv = kv.
Proof.
  revert kv. induction es as [|e es IH]; intros kv Hnot; [done |].
  rewrite key_run_cons. cbn [List.map] in Hnot.
  apply not_elem_of_cons in Hnot as [Hne Hnot].
  rewrite bool_decide_eq_false_2 by done. by apply IH.
Qed.

(** Once an attribute holds the key, every later entry with the key
    only adds a warning. *)
Lemma key_run_attribute (key : string) (es : list entry) (v : value) (na nb : nat) :
  key_run key es
    {| stored := Some v; is_attribute := true;
       attribute_warnings := na; block_warnings := nb |}
  = {| stored := Some v; is_attribute := true;
       attribute_warnings := na + count_attributes key es;
       block_warnings := nb + count_blocks key es |}.
Proof.
  revert na nb. induction es as [|e es IH]; intros na nb.
  - unfold count_blocks. simpl. by rewrite !Nat.add_0_r.
  - rewrite key_run_cons. unfold count_blocks in *.
    destruct e as [k w|k w]; cbn [entry_key count_attributes block_values];
      case_bool_decide; cbn [key_step stored is_attribute attribute_warnings block_warnings];
      rewrite IH; cbn [length]; f_equal; lia.
Qed.

(** Once a block holds the key, later blocks with the key extend the
    list and later attributes with the key only add a warning. *)
Lemma key_run_blocks (key : string) (es : list entry) (elems : list value)
    (na nb : nat) :
  key_run key es
    {| stored := Some (VList elems); is_attribute := false;
       attribute_warnings := na; block_warnings := nb |}
  = {| stored := Some (VList (elems ++ block_values key es)); is_attribute := false;
       attribute_warnings := na + count_attributes key es;
       block_warnings := nb |}.
Proof.
  revert elems na. induction es as [|e es IH]; intros elems na.
  - simpl. by rewrite Nat.add_0_r, app_nil_r.
  - rewrite key_run_cons.
    destruct e as [k w|k w]; cbn [entry_key count_attributes block_values];
      case_bool_decide; cbn [key_step stored is_attribute attribute_warnings block_warnings];
      rewrite IH; rewrite <- ?app_assoc; cbn [app]; f_equal; lia.
Qed.

Lemma key_run_attribute_first (key : string) (v : value) (pre post : list entry) :
  key ∉ List.map entry_key pre ->
  key_run key (pre ++ EAttr key v :: post) empty_view
  = {| stored := Some v; is_attribute := true;
       attribute_warnings := count_attributes key post;
       block_warnings := count_blocks key post |}.
Proof.
  intros Hpre. rewrite key_run_app, (key_run_absent key pre) by done.
  rewrite key_run_cons. cbn [entry_key]. rewrite bool_decide_eq_true_2 by done.
  cbn [key_step empty_view stored attribute_warnings block_warnings].
  by rewrite key_run_attribute.
Qed.

Lemma key_run_block_first (key : string) (v : value) (pre post : list entry) :
  key ∉ List.map entry_key pre ->
  key_run key (pre ++ EBlock key v :: post) empty_view
  = {| stored := Some (VList (v :: block_values key post)); is_attribute := false;
       attribute_warnings := count_attributes key post;
       block_warnings := 0 |}.
Proof.
  intros Hpre. rewrite key_run_app, (key_run_absent key pre) by done.
  rewrite key_run_cons. cbn [entry_key]. rewrite bool_decide_eq_true_2 by done.
  cbn [key_step empty_view stored is_attribute attribute_warnings block_warnings].
  by rewrite key_run_blocks.
Qed.

Lemma block_values_absent (key : string) (es : list entry) :
  key ∉ List.map entry_key es -> block_values key es = [].
Proof.
  induction es as [|e es IH]; [done |]. cbn [List.map]. intros [Hne Hnot]%not_elem_of_cons.
  destruct e as [k w|k w]; cbn [block_values entry_key] in *; [by apply IH |].
  rewrite bool_decide_eq_false_2 by done. by apply IH.
Qed.

Lemma block_values_app (key : string) (es1 es2 : list entry) :
  block_values key (es1 ++ es2) = block_values key es1 ++ block_values key es2.
Proof.
  induction es1 as [|e es1 IH]; [done |].
  destruct e as [k w|k w]; cbn [app block_values]; [done |].
  case_bool_decide; [by rewrite IH | done].
Qed.

(** The first entry with a key that occurs. *)
Lemma first_entry_split (key : string) (es : list entry) :
  key ∈ List.map entry_key es ->
  exists pre e post,
    es = pre ++ e :: post /\ entry_key e = key /\ key ∉ List.map entry_key pre.
Proof.
  induction es as [|e es IH]; cbn [List.map]; [by intros H%elem_of_nil |].
  intros Hin. destruct (decide (entry_key e = key)) as [He|He].
  - exists [], e, es. split; [done |]. split; [done |]. apply not_elem_of_nil.
  - apply elem_of_cons in Hin as [Hin|Hin]; [done |].
    destruct (IH Hin) as (pre & e' & post & -> & He' & Hpre).
    exists (e :: pre), e', post. split; [done |]. split; [done |].
    cbn [List.map]. apply not_elem_of_cons. by split.
Qed.

(** *** What a body holds under a key *)

Lemma view_stored (key : string) (st : body_state) (log : list string) (kv : key_view) :
  view_of key st log = kv ->
  dict_get key (result st) = stored kv
  /\ occurrences (attribute_warning key) log = attribute_warnings kv
  /\ occurrences (block_warning key) log = block_warnings kv.
Proof. by intros <-. Qed.

(** C4: the kind of the first child with a key wins.  After a first
    attribute the key holds that attribute's value and each later block
    with the key is dropped with a warning; after a first block the key
    holds the list of the values of the blocks with the key and each
    later attribute with the key is dropped with a warning. *)
Theorem body_first_kind_wins (args : list value) (pre post : list entry) (e : entry) :
  forallb is_body_child args = true ->
  entries args = pre ++ e :: post ->
  entry_key e ∉ List.map entry_key pre ->
  exists result log,
    body args [] = (Ok (VDict result), log)
    /\ match e with
       | EAttr key v =>
           dict_get key result = Some v
           /\ occurrences (block_warning key) log = count_blocks key post
       | EBlock key v =>
           dict_get key result = Some (VList (v :: block_values key post))
           /\ occurrences (attribute_warning key) log = count_attributes key post
       end.
Proof.
  intros Hok Hes Hpre.
  destruct (body_views args Hok) as (st & log & Hbody & Hview).
  exists (result st), log. split; [done |].
  specialize (Hview (entry_key e)). rewrite Hes in Hview.
  destruct e as [key v|key v]; cbn [entry_key] in *.
  - rewrite key_run_attribute_first in Hview by done.
    by apply view_stored in Hview as (? & ? & ?).
  - rewrite key_run_block_first in Hview by done.
    by apply view_stored in Hview as (? & ? & ?).
Qed.

Lemma body_first_kind_wins_witness :
  exists result log,
    body [VAttribute "a" (VInt 1); VDict [("a", VDict [])]; VStr Str.nl] []
    = (Ok (VDict result), log)
    /\ dict_get "a" result = Some (VInt 1)
    /\ occurrences (block_warning "a") log = count_blocks "a" [EBlock "a" (VDict [])].
Proof.
  apply (body_first_kind_wins
           [VAttribute "a" (VInt 1); VDict [("a", VDict [])]; VStr Str.nl]
           [] [EBlock "a" (VDict [])] (EAttr "a" (VInt 1))).
  - reflexivity.
  - reflexivity.
  - simpl. apply not_elem_of_nil.
Defined.

(** C1, as the code has it: when the first child with a key is a block,
    the key holds the list of the values of all the blocks with that
    key, in source order, starting with that first block's value. *)
Theorem body_collects_blocks (args : list value) (pre post : list entry)
    (key : string) (v : value) :
  forallb is_body_child args = true ->
  entries args = pre ++ EBlock key v :: post ->
  key ∉ List.map entry_key pre ->
  exists result log,
    body args [] = (Ok (VDict result), log)
    /\ dict_get key result = Some (VList (block_values key (entries args)))
    /\ block_values key (entries args) = v :: block_values key post.
Proof.
  intros Hok Hes Hpre.
  destruct (body_views args Hok) as (st & log & Hbody & Hview).
  exists (result st), log. split; [done |].
  assert (Hvals : block_values key (entries args) = v :: block_values key post).
  { rewrite Hes, block_values_app, block_values_absent by done.
    cbn [app block_values]. by rewrite bool_decide_eq_true_2. }
  split; [| done]. rewrite Hvals.
  specialize (Hview key). rewrite Hes, key_run_block_first in Hview by done.
  by apply view_stored in Hview as (? & ? & ?).
Qed.

Lemma body_collects_blocks_witness :
  exists result log,
    body [VDict [("resource", VDict [("a", VDict [])])]; VDiscard;
          VAttribute "x" (VInt 1);
          VDict [("resource", VDict [("b", VDict [])])]] []
    = (Ok (VDict result), log)
    /\ dict_get "resource" result
       = Some (VList (block_values "resource"
                 (entries [VDict [("resource", VDict [("a", VDict [])])]; VDiscard;
                           VAttribute "x" (VInt 1);
                           VDict [("resource", VDict [("b", VDict [])])]])))
    /\ block_values "resource"
         (entries [VDict [("resource", VDict [("a", VDict [])])]; VDiscard;
                   VAttribute "x" (VInt 1);
                   VDict [("resource", VDict [("b", VDict [])])]])
       = VDict [("a", VDict [])]
         :: block_values "resource"
              [EAttr "x" (VInt 1); EBlock "resource" (VDict [("b", VDict [])])].
Proof.
  apply (body_collects_blocks _ []).
  - reflexivity.
  - reflexivity.
  - simpl. apply not_elem_of_nil.
Defined.

(** C1, as stated, fails: a block whose key an earlier attribute holds
    is not collected. *)
Lemma body_block_after_attribute_not_collected :
  body [VAttribute "a" (VInt 1); VDict [("a", VDict [])]] []
  = (Ok (VDict [("a", VInt 1)]), ["a already defined in block, ignoring"])
  /\ block_values "a" (entries [VAttribute "a" (VInt 1); VDict [("a", VDict [])]])
     = [VDict []]
  /\ dict_get "a" [("a", VInt 1)] <> Some (VList [VDict []]).
Proof. repeat split. discriminate. Qed.

(** C3, as the code has it: when no child before the first declaration
    of an attribute key has that key, the key holds the first
    declaration's value, the body is returned, and the log has one
    attribute warning about the key for each later declaration. *)
Theorem body_first_attribute_kept (args : list value) (pre post : list entry)
    (key : string) (v : value) :
  forallb is_body_child args = true ->
  entries args = pre ++ EAttr key v :: post ->
  key ∉ List.map entry_key pre ->
  exists result log,
    body args [] = (Ok (VDict result), log)
    /\ dict_get key result = Some v
    /\ occurrences (attribute_warning key) log = count_attributes key post.
Proof.
  intros Hok Hes Hpre.
  destruct (body_views args Hok) as (st & log & Hbody & Hview).
  exists (result st), log. split; [done |].
  specialize (Hview key). rewrite Hes, key_run_attribute_first in Hview by done.
  by apply view_stored in Hview as (? & ? & ?).
Qed.

Lemma body_first_attribute_kept_witness :
  exists result log,
    body [VAttribute "a" (VInt 1); VAttribute "a" (VInt 2); VAttribute "a" (VInt 3)] []
    = (Ok (VDict result), log)
    /\ dict_get "a" result = Some (VInt 1)
    /\ occurrences (attribute_warning "a") log
       = count_attributes "a" [EAttr "a" (VInt 2); EAttr "a" (VInt 3)].
Proof.
  apply (body_first_attribute_kept _ []).
  - reflexivity.
  - reflexivity.
  - simpl. apply not_elem_of_nil.
Defined.

(** C3, as stated, fails: after a block with the key, a key declared
    twice holds the block list and both declarations are warned about. *)
Lemma body_attributes_after_block_all_dropped :
  body [VDict [("a", VDict [])]; VAttribute "a" (VInt 1); VAttribute "a" (VInt 2)] []
  = (Ok (VDict [("a", VList [VDict []])]),
     ["a already defined in attribute, ignoring";
      "a already defined in attribute, ignoring"])
  /\ dict_get "a" [("a", VList [VDict []])] <> Some (VInt 1)
  /\ occurrences (attribute_warning "a")
       ["a already defined in attribute, ignoring";
        "a already defined in attribute, ignoring"] = 2%nat.
Proof. repeat split. discriminate. Qed.

Lemma attribute_keys_app (es1 es2 : list entry) :
  attribute_keys (es1 ++ es2) = attribute_keys es1 ++ attribute_keys es2.
Proof.
  induction es1 as [|e es1 IH]; [done |].
  destruct e; cbn [app attribute_keys]; by rewrite IH.
Qed.

Lemma no_entry_with_key (key : string) (es : list entry) :
  key ∉ attribute_keys es -> count_blocks key es = 0%nat ->
  key ∉ List.map entry_key es.
Proof.
  unfold count_blocks. induction es as [|e es IH]; intros Hattr Hblocks.
  - apply not_elem_of_nil.
  - destruct e as [k w|k w]; cbn [attribute_keys block_values List.map entry_key] in *.
    + apply not_elem_of_cons in Hattr as [Hne Hattr].
      apply not_elem_of_cons. split; [done | by apply IH].
    + case_bool_decide as Hk; [discriminate Hblocks |].
      apply not_elem_of_cons. split; [done | by apply IH].
Qed.

(** C2, as the code has it: when the attributes of a body have distinct
    keys, every attribute with no block of its key before it is bound to
    its value, whatever blocks follow, and the keys of the output are
    the keys of the attributes and of the blocks. *)
Theorem body_distinct_attributes (args : list value) :
  forallb is_body_child args = true ->
  NoDup (attribute_keys (entries args)) ->
  exists result log,
    body args [] = (Ok (VDict result), log)
    /\ (forall pre key v post,
          entries args = pre ++ EAttr key v :: post ->
          count_blocks key pre = 0%nat ->
          dict_get key result = Some v)
    /\ (forall key,
          dict_mem key result = true <-> key ∈ List.map entry_key (entries args)).
Proof.
  intros Hok Hdistinct.
  destruct (body_views args Hok) as (st & log & Hbody & Hview).
  exists (result st), log. split; [done |]. split.
  - intros pre key v post Hes Hblocks.
    assert (Hpre : key ∉ List.map entry_key pre).
    { apply no_entry_with_key; [| done].
      rewrite Hes, attribute_keys_app in Hdistinct. cbn [attribute_keys] in Hdistinct.
      apply NoDup_app in Hdistinct as (_ & Hsep & _).
      intros Hin. apply (Hsep key Hin), list_elem_of_here. }
    specialize (Hview key). rewrite Hes, key_run_attribute_first in Hview by done.
    by apply view_stored in Hview as (? & ? & ?).
  - intros key. specialize (Hview key). split.
    + intros Hmem. destruct (decide (key ∈ List.map entry_key (entries args))) as [|Hnot];
        [done |].
      rewrite key_run_absent in Hview by done.
      apply view_stored in Hview as (Hget & _). apply dict_mem_true in Hmem as [w Hw].
      rewrite Hw in Hget. discriminate Hget.
    + intros (pre & e & post & Hes & <- & Hpre)%first_entry_split.
      rewrite Hes in Hview. apply dict_mem_true.
      destruct e as [k w|k w]; cbn [entry_key] in *.
      * rewrite key_run_attribute_first in Hview by done.
        apply view_stored in Hview as (Hget & _). by eexists.
      * rewrite key_run_block_first in Hview by done.
        apply view_stored in Hview as (Hget & _). by eexists.
Qed.

Lemma body_distinct_attributes_witness :
  exists result log,
    body [VAttribute "a" (VInt 1); VDict [("a", VDict [])]; VAttribute "b" (VInt 2)] []
    = (Ok (VDict result), log)
    /\ (forall pre key v post,
          entries [VAttribute "a" (VInt 1); VDict [("a", VDict [])]; VAttribute "b" (VInt 2)]
          = pre ++ EAttr key v :: post ->
          count_blocks key pre = 0%nat ->
          dict_get key result = Some v)
    /\ (forall key,
          dict_mem key result = true
          <-> key ∈ List.map entry_key
                (entries [VAttribute "a" (VInt 1); VDict [("a", VDict [])];
                          VAttribute "b" (VInt 2)])).
Proof.
  apply body_distinct_attributes.
  - reflexivity.
  - vm_compute. apply NoDup_cons_2; [| apply NoDup_singleton].
    intros H%list_elem_of_singleton. discriminate H.
Defined.

(** C2, as stated, fails: an attribute after a block with its key is
    not bound, and the key of a block is a key of the output. *)
Lemma body_attribute_after_block_not_bound :
  body [VDict [("a", VDict [])]; VAttribute "a" (VInt 1)] []
  = (Ok (VDict [("a", VList [VDict []])]), ["a already defined in attribute, ignoring"])
  /\ NoDup (attribute_keys (entries [VDict [("a", VDict [])]; VAttribute "a" (VInt 1)]))
  /\ dict_get "a" [("a", VList [VDict []])] <> Some (VInt 1)
  /\ body [VAttribute "a" (VInt 1); VDict [("b", VDict [])]] []
     = (Ok (VDict [("a", VInt 1); ("b", VList [VDict []])]), [])
  /\ dict_keys [("a", VInt 1); ("b", VList [VDict []])] <> ["a"].
Proof.
  split; [reflexivity |]. split; [apply NoDup_singleton |].
  split; [discriminate |]. split; [reflexivity | discriminate].
Qed.

(** * Further properties *)

(** ** Insignificant tokens *)

Lemma is_new_line_token_false (v : value) :
  is_new_line_token v = false <-> v <> VStr Str.nl.
Proof.
  destruct v; cbn [is_new_line_token]; try (split; [discriminate | done]).
  case_bool_decide as H; split.
  - discriminate.
  - intros Hne. destruct Hne. by subst.
  - intros _ E. by injection E.
  - done.
Qed.

Lemma is_discard_false (v : value) : is_discard v = false <-> v <> VDiscard.
Proof. destruct v; cbn [is_discard]; split; done. Qed.

(** The filter keeps, in their order, exactly the children that are
    neither the newline string nor [Discard]; filtering twice changes
    nothing and filtering goes through concatenation. *)
Theorem strip_new_line_tokens_keeps_the_rest :
  (forall args v,
     v ∈ strip_new_line_tokens args <-> v ∈ args /\ v <> VStr Str.nl /\ v <> VDiscard)
  /\ (forall args,
        strip_new_line_tokens (strip_new_line_tokens args) = strip_new_line_tokens args)
  /\ (forall args1 args2,
        strip_new_line_tokens (args1 ++ args2)
        = strip_new_line_tokens args1 ++ strip_new_line_tokens args2)
  /\ (forall args,
        strip_new_line_tokens args = args
        <-> (VStr Str.nl ∉ args) /\ (VDiscard ∉ args)).
Proof.
  split; [| split; [| split]].
  - intros args v. unfold strip_new_line_tokens.
    rewrite !list_elem_of_In, filter_In, andb_true_iff, !negb_true_iff.
    by rewrite is_new_line_token_false, is_discard_false.
  - intros args. unfold strip_new_line_tokens.
    induction args as [|a args IH]; [done |]. cbn [List.filter].
    destruct (negb (is_new_line_token a) && negb (is_discard a)) eqn:E; [| done].
    cbn [List.filter]. by rewrite E, IH.
  - intros args1 args2. apply List.filter_app.
  - intros args. unfold strip_new_line_tokens. split.
    + intros E. rewrite <- E. split; intros Hin.
      * apply list_elem_of_In, filter_In in Hin as [_ Hin]. done.
      * apply list_elem_of_In, filter_In in Hin as [_ Hin]. done.
    + intros [Hnl Hd]. induction args as [|a args IH]; [done |].
      apply not_elem_of_cons in Hnl as [Hnl1 Hnl2].
      apply not_elem_of_cons in Hd as [Hd1 Hd2].
      cbn [List.filter].
      assert (is_new_line_token a = false) as -> by (by apply is_new_line_token_false).
      assert (is_discard a = false) as -> by (by apply is_discard_false).
      cbn [negb andb]. f_equal. by apply IH.
Qed.



(** ** Heredoc tokens and the two patterns *)

Section RegexConverse.

Context {R : Type}.
Implicit Types (k : string -> string -> option R) (class : ascii -> bool).

Lemma all_in_cons class (c : ascii) (s : string) :
  all_in class (String c s) = class c && all_in class s.
Proof. reflexivity. Qed.

(** A repetition that fails has tried every run of the class. *)
Lemma re_star_none_inv class s k :
  re_star class s k = None ->
  forall taken left, s = taken +:+ left -> all_in class taken = true -> k taken left = None.
Proof.
  revert k. induction s as [|c s IH]; intros k Hnone taken left Hs Hall.
  - destruct taken; [| done]. rewrite app_nil_str in Hs. by subst left.
  - cbn [re_star] in Hnone. destruct taken as [|d taken].
    + rewrite app_nil_str in Hs. subst left.
      destruct (class c); [| done].
      by destruct (re_star class s (fun t l => k (String c t) l)).
    + rewrite app_cons_str in Hs. injection Hs as <- ->.
      rewrite all_in_cons in Hall. apply andb_true_iff in Hall as [Hc Hall].
      rewrite Hc in Hnone.
      destruct (re_star class (taken +:+ left) (fun t l => k (String c t) l)) eqn:E;
        [done |].
      by apply (IH _ E taken left).
Qed.

(** A repetition that succeeds has found a run after which the rest of
    the pattern gives the same result. *)
Lemma re_star_some class s k r :
  re_star class s k = Some r ->
  exists taken left, s = taken +:+ left /\ all_in class taken = true /\ k taken left = Some r.
Proof.
  revert k. induction s as [|c s IH]; intros k Hsome.
  - by exists EmptyString, EmptyString.
  - cbn [re_star] in Hsome.
    destruct (class c) eqn:Hc; [| by exists EmptyString, (String c s)].
    destruct (re_star class s (fun t l => k (String c t) l)) as [r'|] eqn:E.
    + injection Hsome as ->. destruct (IH _ E) as (taken & left & -> & Hall & Hk).
      exists (String c taken), left. split; [done |]. split; [| done].
      by rewrite all_in_cons, Hc.
    + by exists EmptyString, (String c s).
Qed.

Lemma re_star_is_some class s k :
  is_Some (re_star class s k)
  <-> exists taken left,
        s = taken +:+ left /\ all_in class taken = true /\ is_Some (k taken left).
Proof.
  split.
  - intros [r (taken & left & Hs & Hall & Hk)%re_star_some]. by exists taken, left.
  - intros (taken & left & Hs & Hall & [r Hk]).
    destruct (re_star class s k) eqn:E; [done |].
    rewrite (re_star_none_inv _ _ _ E taken left Hs Hall) in Hk. discriminate Hk.
Qed.

End RegexConverse.

Lemma re_literal_some (lit s rest : string) :
  re_literal lit s = Some rest -> s = lit +:+ rest.
Proof.
  revert s. induction lit as [|c lit IH]; intros s H.
  - simpl in H. by injection H as ->.
  - destruct s as [|d s]; [done |]. cbn [re_literal] in H.
    case_bool_decide as Hcd; [| done]. subst d.
    rewrite app_cons_str. f_equal. by apply IH.
Qed.

(** A token matches one of the patterns exactly when it is the opening,
    a delimiter, a newline, some text, the delimiter again and anything
    after it; the groups of a match are such a delimiter and text. *)
Theorem heredoc_match_shape (opening token : string) :
  (forall group1 group2,
     heredoc_match opening token = Some (group1, group2) ->
     valid_delimiter group1 = true
     /\ exists tail,
          token = opening +:+ group1 +:+ Str.nl +:+ group2 +:+ group1 +:+ tail)
  /\ (is_Some (heredoc_match opening token)
      <-> exists delim text tail,
            valid_delimiter delim = true
            /\ token = opening +:+ delim +:+ Str.nl +:+ text +:+ delim +:+ tail).
Proof.
  assert (Hsound : forall group1 group2,
             heredoc_match opening token = Some (group1, group2) ->
             valid_delimiter group1 = true
             /\ exists tail,
                  token = opening +:+ group1 +:+ Str.nl +:+ group2 +:+ group1 +:+ tail).
  { intros group1 group2. unfold heredoc_match.
    destruct (re_literal opening token) as [[|c s1]|] eqn:Hopen; [done | | done].
    apply re_literal_some in Hopen as ->.
    destruct (is_letter c) eqn:Hc; [| done].
    unfold re_plus. destruct s1 as [|c' s1]; [done |].
    destruct (is_delimiter_char c') eqn:Hc'; [| done].
    intros (taken & s2 & -> & Hall & Hk)%re_star_some.
    destruct (re_literal Str.nl s2) as [s3|] eqn:Hnl; [| done].
    apply re_literal_some in Hnl as ->.
    apply re_star_some in Hk as (g2 & s4 & -> & _ & Hk).
    destruct (re_literal (String c (String c' taken)) s4) as [tail|] eqn:Hback; [| done].
    apply re_literal_some in Hback as ->. injection Hk as <- <-.
    split.
    - cbn [valid_delimiter]. by rewrite Hc, Hc', Hall.
    - exists tail. by rewrite !app_cons_str. }
  split; [done |]. split.
  - intros [[group1 group2] H]. destruct (Hsound _ _ H) as (Hvalid & tail & Htoken).
    by exists group1, group2, tail.
  - intros (delim & text & tail & Hvalid & ->).
    apply valid_delimiter_inv in Hvalid as (c & c' & rest & -> & Hc & Hc' & Hrest).
    unfold heredoc_match. rewrite re_literal_app, !app_cons_str, Hc.
    unfold re_plus. rewrite Hc'.
    apply re_star_is_some. eexists rest, _. split; [done |]. split; [done |].
    rewrite re_literal_app.
    apply re_star_is_some. eexists text, _. split; [done |].
    split; [apply all_in_any_char |].
    rewrite <- !app_cons_str, re_literal_app. by eexists.
Qed.

Lemma heredoc_match_shape_witness :
  is_Some (heredoc_match "<<" ("<<" +:+ "EOT" +:+ Str.nl +:+ "text" +:+ "EOT" +:+ " # end")).
Proof.
  apply (heredoc_match_shape "<<"). exists "EOT", "text", " # end". split; reflexivity.
Defined.

(** ** What the heredoc rules return *)

(** [lstrip] removes a run of the given characters and stops at the
    first other character. *)
Lemma lstrip_spec (chars : list ascii) (s : string) :
  exists head,
    s = head +:+ Str.lstrip chars s
    /\ Forall (fun c => c ∈ chars) (Str.to_list head)
    /\ (forall c rest, Str.lstrip chars s = String c rest -> c ∉ chars).
Proof.
  induction s as [|c s (head & Hs & Hhead & Hstop)].
  - exists EmptyString. split; [done |]. split; [constructor | done].
  - cbn [Str.lstrip]. case_bool_decide as Hc.
    + exists (String c head). split; [by rewrite app_cons_str, <- Hs |].
      split; [by constructor | done].
    + exists EmptyString. split; [done |]. split; [constructor |].
      by intros c' rest [= <- _].
Qed.

Lemma of_list_snoc (l : list ascii) (c : ascii) :
  Str.of_list (l ++ [c]) = Str.of_list l +:+ String c EmptyString.
Proof. by rewrite of_list_app. Qed.

(** [rstrip] removes a run of the given characters at the end and
    leaves a text that does not end with one of them. *)
Lemma rstrip_spec (chars : list ascii) (s : string) :
  exists tail,
    s = Str.rstrip chars s +:+ tail
    /\ Forall (fun c => c ∈ chars) (Str.to_list tail)
    /\ (forall front c,
          Str.rstrip chars s = front +:+ String c EmptyString -> c ∉ chars).
Proof.
  unfold Str.rstrip.
  destruct (lstrip_spec chars (Str.rev s)) as (head & Hs & Hhead & Hstop).
  exists (Str.rev head). split; [| split].
  - rewrite <- rev_app_str, <- Hs. by rewrite rev_involutive_str.
  - rewrite to_list_rev. by apply Forall_rev.
  - intros front c E. apply (f_equal Str.rev) in E.
    rewrite rev_involutive_str, rev_app_str in E.
    by apply (Hstop c (Str.rev front)).
Qed.

(** On a token made of [<<], a delimiter, a newline, a text and the
    delimiter, the plain rule returns, between quotes, the text without
    the newlines, tabs and spaces at its end, and nothing else removed. *)
Theorem heredoc_template_strips_the_end py_repr (delim text : string)
    (more : list value) :
  valid_delimiter delim = true ->
  exists kept tail,
    heredoc_template py_repr
      (VStr ("<<" +:+ delim +:+ Str.nl +:+ text +:+ delim) :: more)
    = Ok (VStr (Str.quote +:+ kept +:+ Str.quote))
    /\ text = kept +:+ tail
    /\ Forall (fun c => c ∈ trim_chars) (Str.to_list tail)
    /\ (forall front c, kept = front +:+ String c EmptyString -> c ∉ trim_chars).
Proof.
  intros Hvalid.
  destruct (rstrip_spec trim_chars text) as (tail & Htext & Htail & Hend).
  exists (Str.rstrip trim_chars text), tail. split; [| done].
  unfold heredoc_template, HEREDOC_PATTERN. rewrite arg_at_head. cbn [py_str].
  by rewrite heredoc_match_well_formed.
Qed.

Lemma heredoc_template_strips_the_end_witness :
  exists kept tail,
    heredoc_template (fun _ => EmptyString)
      [VStr ("<<" +:+ "EOF" +:+ Str.nl +:+ ("hello" +:+ Str.nl) +:+ "EOF")]
    = Ok (VStr (Str.quote +:+ kept +:+ Str.quote))
    /\ "hello" +:+ Str.nl = kept +:+ tail
    /\ Forall (fun c => c ∈ trim_chars) (Str.to_list tail)
    /\ (forall front c, kept = front +:+ String c EmptyString -> c ∉ trim_chars).
Proof.
  apply (heredoc_template_strips_the_end (fun _ => EmptyString) "EOF" ("hello" +:+ Str.nl) []).
  reflexivity.
Defined.

(** Whatever a heredoc rule returns is a quoted literal: where it
    becomes an attribute value, a tuple element or an object value,
    [to_string_dollar] gives the text between the quotes and never
    wraps it. *)
Theorem heredoc_results_are_literals py_repr (args : list value) (v : value) :
  heredoc_template py_repr args = Ok v \/ heredoc_template_trim py_repr args = Ok v ->
  exists text,
    v = VStr (Str.quote +:+ text +:+ Str.quote)
    /\ to_string_dollar v = VStr text
    /\ strip_quotes v = VStr text.
Proof.
  assert (Hq : forall text,
             to_string_dollar (VStr (Str.quote +:+ text +:+ Str.quote)) = VStr text
             /\ strip_quotes (VStr (Str.quote +:+ text +:+ Str.quote)) = VStr text).
  { intros text. unfold to_string_dollar, strip_quotes. rewrite is_quoted_app.
    split; f_equal; apply slice_inner. }
  unfold heredoc_template, heredoc_template_trim. intros [H|H].
  - destruct (arg_at 0 args); [| done].
    destruct (HEREDOC_PATTERN _) as [[g1 g2]|]; [| done].
    injection H as <-. eexists. split; [done |]. apply Hq.
  - destruct (arg_at 0 args); [| done].
    destruct (HEREDOC_TRIM_PATTERN _) as [[g1 g2]|]; [| done].
    injection H as <-. eexists. split; [done |]. apply Hq.
Qed.

Lemma heredoc_results_are_literals_witness :
  exists text,
    VStr (Str.quote +:+ "hello" +:+ Str.quote) = VStr (Str.quote +:+ text +:+ Str.quote)
    /\ to_string_dollar (VStr (Str.quote +:+ "hello" +:+ Str.quote)) = VStr text
    /\ strip_quotes (VStr (Str.quote +:+ "hello" +:+ Str.quote)) = VStr text.
Proof.
  apply (heredoc_results_are_literals (fun _ => EmptyString)
           [VStr ("<<EOF" +:+ Str.nl +:+ "hello" +:+ Str.nl +:+ "EOF")]).
  left. reflexivity.
Defined.

Lemma re_literal_not_prefix (lit s : string) :
  Str.startswith lit s = false -> re_literal lit s = None.
Proof.
  unfold Str.startswith. intros H.
  destruct (re_literal lit s) as [rest|] eqn:E; [| done].
  apply re_literal_some in E as ->. by rewrite prefix_app in H.
Qed.

(** Each heredoc rule takes the tokens of its own form only: the plain
    rule raises on every token that starts with [<<-], the dedenting
    rule on every token that does not, and both raise [IndexError] when
    they have no child. *)
Theorem heredoc_rules_reject_the_other_form py_repr :
  (forall rest more,
     heredoc_template py_repr (VStr ("<<-" +:+ rest) :: more)
     = Raise (RuntimeError ("Invalid Heredoc token: " +:+ "<<-" +:+ rest)))
  /\ (forall token more,
        Str.startswith "<<-" token = false ->
        heredoc_template_trim py_repr (VStr token :: more)
        = Raise (RuntimeError ("Invalid Heredoc token: " +:+ token)))
  /\ heredoc_template py_repr [] = Raise IndexError
  /\ heredoc_template_trim py_repr [] = Raise IndexError.
Proof.
  repeat split.
  intros token more H.
  unfold heredoc_template_trim, HEREDOC_TRIM_PATTERN, heredoc_match.
  rewrite arg_at_head. cbn [py_str]. by rewrite re_literal_not_prefix.
Qed.

Lemma heredoc_rules_reject_the_other_form_witness :
  heredoc_template_trim (fun _ => EmptyString)
    [VStr ("<<EOF" +:+ Str.nl +:+ "hello" +:+ Str.nl +:+ "EOF")]
  = Raise (RuntimeError ("Invalid Heredoc token: "
                         +:+ ("<<EOF" +:+ Str.nl +:+ "hello" +:+ Str.nl +:+ "EOF"))).
Proof.
  destruct (heredoc_rules_reject_the_other_form (fun _ => EmptyString)) as (_ & H & _).
  apply H. reflexivity.
Defined.

(** Splitting at a character and joining with it gives the text back. *)
Lemma join_split (sep : ascii) (s : string) :
  Str.join (String sep EmptyString) (Str.split sep s) = s.
Proof.
  induction s as [|c s IH]; [done |]. cbn [Str.split].
  destruct (split_cons sep s) as (h & t & Hsplit). rewrite Hsplit in *.
  case_bool_decide as Hc.
  - subst c.
    change (String sep s) with (EmptyString +:+ String sep EmptyString +:+ s).
    by rewrite <- IH.
  - destruct t as [|h' t].
    + cbn [Str.join] in *. by rewrite IH.
    + change (String c (?x)) with (String c EmptyString +:+ x). rewrite <- IH.
      reflexivity.
Qed.

Lemma slice_from_0 (s : string) : Str.slice_from 0 s = s.
Proof.
  unfold Str.slice_from, Str.clamp, Str.len. cbn [Z.ltb Z.compare].
  by replace (Z.to_nat (Z.min 0 (Z.of_nat (String.length s)))) with 0%nat by lia.
Qed.

Lemma min_leading_spaces_0 (lines : list string) (line : string) :
  line ∈ lines -> count_leading_spaces line = 0%nat -> min_leading_spaces lines = 0.
Proof.
  intros Hin Hcount.
  destruct (min_fold_spec lines sys_maxsize) as (_ & Hle & Hmin).
  fold (min_leading_spaces lines) in Hle, Hmin.
  specialize (Hle line Hin). rewrite leading_spaces_count, Hcount in Hle.
  destruct Hmin as [E|(line' & _ & E)].
  - rewrite E in Hle. by vm_compute in Hle.
  - rewrite leading_spaces_count in E. lia.
Qed.

(** One line that does not start with a space, be it empty or indented
    with a tab, turns the dedent off: the dedenting rule then returns
    what the plain rule returns for the same delimiter and text. *)
Theorem heredoc_template_trim_unindented_line py_repr (delim text line : string)
    (more : list value) :
  valid_delimiter delim = true ->
  line ∈ Str.split Str.newline (Str.rstrip trim_chars text) ->
  count_leading_spaces line = 0%nat ->
  heredoc_template_trim py_repr
    (VStr ("<<-" +:+ delim +:+ Str.nl +:+ text +:+ delim) :: more)
  = Ok (VStr (Str.quote +:+ Str.rstrip trim_chars text +:+ Str.quote))
  /\ heredoc_template_trim py_repr
       (VStr ("<<-" +:+ delim +:+ Str.nl +:+ text +:+ delim) :: more)
     = heredoc_template py_repr
         (VStr ("<<" +:+ delim +:+ Str.nl +:+ text +:+ delim) :: more).
Proof.
  intros Hvalid Hin Hcount.
  assert (Htrim : heredoc_template_trim py_repr
                    (VStr ("<<-" +:+ delim +:+ Str.nl +:+ text +:+ delim) :: more)
                  = Ok (VStr (Str.quote +:+ Str.rstrip trim_chars text +:+ Str.quote))).
  { unfold heredoc_template_trim, HEREDOC_TRIM_PATTERN. rewrite arg_at_head. cbn [py_str].
    rewrite heredoc_match_well_formed by done.
    rewrite (min_leading_spaces_0 _ line Hin Hcount).
    rewrite (map_ext _ id) by apply slice_from_0.
    rewrite map_id. change Str.nl with (String Str.newline EmptyString).
    by rewrite join_split. }
  split; [done |]. rewrite Htrim.
  unfold heredoc_template, HEREDOC_PATTERN. rewrite arg_at_head. cbn [py_str].
  by rewrite heredoc_match_well_formed.
Qed.

Lemma heredoc_template_trim_unindented_line_witness :
  heredoc_template_trim (fun _ => EmptyString)
    [VStr ("<<-" +:+ "EOF" +:+ Str.nl
           +:+ ("  a" +:+ Str.nl +:+ String Str.tab "b" +:+ Str.nl) +:+ "EOF")]
  = Ok (VStr (Str.quote
              +:+ Str.rstrip trim_chars ("  a" +:+ Str.nl +:+ String Str.tab "b" +:+ Str.nl)
              +:+ Str.quote))
  /\ heredoc_template_trim (fun _ => EmptyString)
       [VStr ("<<-" +:+ "EOF" +:+ Str.nl
              +:+ ("  a" +:+ Str.nl +:+ String Str.tab "b" +:+ Str.nl) +:+ "EOF")]
     = heredoc_template (fun _ => EmptyString)
         [VStr ("<<" +:+ "EOF" +:+ Str.nl
                +:+ ("  a" +:+ Str.nl +:+ String Str.tab "b" +:+ Str.nl) +:+ "EOF")].
Proof.
  apply (heredoc_template_trim_unindented_line (fun _ => EmptyString) "EOF"
           ("  a" +:+ Str.nl +:+ String Str.tab "b" +:+ Str.nl) (String Str.tab "b") []).
  - reflexivity.
  - vm_compute. apply list_elem_of_further, list_elem_of_here.
  - reflexivity.
Defined.

(** ** Blocks: line metadata and failures *)

Lemma wrap_label_raise (labels : list value) (e : exn) :
  List.fold_left wrap_label labels (Raise e) = Raise e.
Proof. by induction labels. Qed.

(** In metadata mode the map next to the body's own items holds the
    start line and the end line of the block under the two metadata
    keys, replacing items of the body with these keys, and every other
    key of the body is as it was. *)
Theorem block_line_metadata (meta : Meta) (labels : list string) (items : dict) :
  exists inner,
    block true meta (List.map VStr labels ++ [VDict items])
    = Ok (nest (List.map dequote labels) (VDict inner))
    /\ dict_get START_LINE inner = Some (VInt (line meta))
    /\ dict_get END_LINE inner = Some (VInt (end_line meta))
    /\ (forall key, key <> START_LINE -> key <> END_LINE ->
          dict_get key inner = dict_get key items).
Proof.
  eexists. split; [| split; [| split]].
  - unfold block. rewrite unpack_last_snoc. cbn [add_line_meta]. apply wrap_labels_nest.
  - rewrite dict_get_set_ne by done. apply dict_get_set_eq.
  - apply dict_get_set_eq.
  - intros key H1 H2. by rewrite !dict_get_set_ne.
Qed.

(** A block rule without children raises [ValueError]; in metadata mode
    a last child that is not a dict raises [AttributeError], whatever
    the labels are. *)
Theorem block_failures (meta : Meta) :
  (forall with_meta, block with_meta meta [] = Raise ValueError)
  /\ (forall labels block_body,
        (forall items, block_body <> VDict items) ->
        block true meta (labels ++ [block_body]) = Raise AttributeError).
Proof.
  split; [done |]. intros labels block_body Hnot.
  unfold block. rewrite unpack_last_snoc.
  destruct block_body; cbn [add_line_meta]; try apply wrap_label_raise.
  by destruct (Hnot items).
Qed.

Lemma block_failures_witness :
  block true {| line := 1; end_line := 2 |} ([VStr "a"; VInt 3] ++ [VStr "body"])
  = Raise AttributeError.
Proof.
  destruct (block_failures {| line := 1; end_line := 2 |}) as [_ H].
  apply H. discriminate.
Defined.

(** ** Bodies: the log *)

Lemma first_entry_none (key : string) (es : list entry) :
  first_entry key es = None <-> key ∉ List.map entry_key es.
Proof.
  induction es as [|e es IH]; cbn [first_entry List.map].
  - split; [intros _; apply not_elem_of_nil | done].
  - rewrite not_elem_of_cons. case_bool_decide as He.
    + split; [done | by intros [Hne _]].
    + rewrite IH. split; [by intros H | by intros [_ H]].
Qed.

Lemma first_entry_some (key : string) (es : list entry) (e : entry) :
  first_entry key es = Some e ->
  exists pre post,
    es = pre ++ e :: post /\ entry_key e = key /\ key ∉ List.map entry_key pre.
Proof.
  induction es as [|e' es IH]; cbn [first_entry]; [done |].
  case_bool_decide as He.
  - intros [= <-]. exists [], es. split; [done |]. split; [done | apply not_elem_of_nil].
  - intros (pre & post & -> & Hk & Hpre)%IH.
    exists (e' :: pre), post. split; [done |]. split; [done |].
    cbn [List.map]. apply not_elem_of_cons. by split.
Qed.

(** What the loop holds about a key after some entries, read off the
    first entry with the key. *)
Lemma key_run_first (key : string) (seen : list entry) :
  match first_entry key seen with
  | None => key_run key seen empty_view = empty_view
  | Some (EAttr _ v) =>
      stored (key_run key seen empty_view) = Some v
      /\ is_attribute (key_run key seen empty_view) = true
  | Some (EBlock _ _) =>
      (exists elems, stored (key_run key seen empty_view) = Some (VList elems))
      /\ is_attribute (key_run key seen empty_view) = false
  end.
Proof.
  destruct (first_entry key seen) as [e|] eqn:E.
  - apply first_entry_some in E as (pre & post & -> & Hk & Hpre).
    destruct e as [k v|k v]; cbn [entry_key] in Hk; subst k.
    + by rewrite key_run_attribute_first.
    + rewrite key_run_block_first by done. split; [by eexists | done].
  - apply key_run_absent. by apply first_entry_none.
Qed.

Lemma body_entry_log (seen : list entry) (e : entry) (st : body_state)
    (log : list string) :
  (forall key, view_of key st log = key_run key seen empty_view) ->
  exists st', body_entry e st log = (Ok st', log ++ warning_for seen e).
Proof.
  intros Hview.
  pose proof (key_run_first (entry_key e) seen) as Hfirst.
  rewrite <- (Hview (entry_key e)) in Hfirst. cbn [view_of stored is_attribute] in Hfirst.
  unfold warning_for, dict_mem.
  destruct e as [k v|k v]; cbn [entry_key body_entry] in *.
  - unfold body_attribute, dict_mem.
    destruct (first_entry k seen) as [[k' w|k' w]|].
    + destruct Hfirst as [-> _]. by eexists.
    + destruct Hfirst as [[elems ->] _]. by eexists.
    + injection Hfirst as -> _ _ _. rewrite app_nil_r. by eexists.
  - unfold body_block_item, dict_mem.
    destruct (first_entry k seen) as [[k' w|k' w]|].
    + destruct Hfirst as [-> ->]. by eexists.
    + destruct Hfirst as [[elems ->] ->]. rewrite app_nil_r. by eexists.
    + injection Hfirst as -> _ _ _. rewrite app_nil_r. by eexists.
Qed.

Lemma body_entries_log (es seen : list entry) (st : body_state) (log : list string) :
  body_entries seen {| result := []; attributes := ∅ |} [] = (Ok st, log) ->
  exists st', body_entries es st log = (Ok st', log ++ warnings_from seen es).
Proof.
  revert seen st log. induction es as [|e es IH]; intros seen st log Hseen.
  - exists st. cbn [warnings_from]. by rewrite app_nil_r.
  - destruct (body_entries_run seen {| result := []; attributes := ∅ |} []
                body_inv_initial) as (st0 & log0 & Hrun & _ & Hview).
    rewrite Hseen in Hrun. injection Hrun as <- <-.
    destruct (body_entry_log seen e st log Hview) as [st1 Hstep].
    destruct (IH (seen ++ [e]) st1 (log ++ warning_for seen e)) as [st2 Hrest].
    { rewrite body_entries_app. unfold bind. rewrite Hseen.
      cbn [body_entries]. unfold bind. by rewrite Hstep. }
    exists st2. cbn [body_entries warnings_from]. unfold bind. rewrite Hstep.
    by rewrite app_assoc.
Qed.

(** The log of a body is fixed by its children: in source order, one
    attribute warning for each attribute whose key an earlier child
    has, one block warning for each block whose key was first used by
    an attribute, and nothing else. *)
Theorem body_log (args : list value) :
  forallb is_body_child args = true ->
  exists result,
    body args [] = (Ok (VDict result), warnings_from [] (entries args)).
Proof.
  intros Hok.
  destruct (body_entries_log (entries args) [] {| result := []; attributes := ∅ |} [])
    as [st Hrun]; [done |].
  exists (result st). unfold body, bind. by rewrite body_loop_entries, Hrun.
Qed.

Lemma body_log_witness :
  exists result,
    body [VAttribute "a" (VInt 1); VDict [("a", VDict []); ("b", VDict [])];
          VAttribute "b" (VInt 2); VDict [("b", VDict [])]] []
    = (Ok (VDict result),
       warnings_from []
         (entries [VAttribute "a" (VInt 1); VDict [("a", VDict []); ("b", VDict [])];
                   VAttribute "b" (VInt 2); VDict [("b", VDict [])]])).
Proof. apply body_log. reflexivity. Defined.

(** ** Bodies: keys, failures and the children made by other rules *)

Lemma dict_mem_keys (key : string) (d : dict) :
  dict_mem key d = true <-> key ∈ dict_keys d.
Proof.
  unfold dict_mem, dict_keys. induction d as [|[k v] d IH]; cbn [dict_get fmap list_fmap fst].
  - split; [done | by intros H%elem_of_nil].
  - rewrite elem_of_cons. case_bool_decide as Hk.
    + split; [by left | done].
    + rewrite IH. split; [by right | by intros [->|H]].
Qed.

Lemma dict_keys_set (key : string) (v : value) (d : dict) :
  dict_keys (dict_set key v d)
  = if dict_mem key d then dict_keys d else dict_keys d ++ [key].
Proof.
  unfold dict_mem, dict_keys. induction d as [|[k w] d IH]; cbn [dict_set dict_get]; [done |].
  case_bool_decide as Hk; [done |].
  cbn [fmap list_fmap fst] in *. rewrite IH. by destruct (dict_get key d).
Qed.

Lemma keys_step_mem (key : string) (d : dict) :
  (if dict_mem key d then dict_keys d else dict_keys d ++ [key])
  = keys_step (dict_keys d) key.
Proof.
  unfold keys_step. destruct (dict_mem key d) eqn:E.
  - apply dict_mem_keys in E. by rewrite bool_decide_eq_true_2.
  - rewrite bool_decide_eq_false_2; [done |].
    intros H%dict_mem_keys. by rewrite H in E.
Qed.

Lemma body_entry_keys (e : entry) (st st' : body_state) (log log' : list string) :
  body_entry e st log = (Ok st', log') ->
  dict_keys (result st') = keys_step (dict_keys (result st)) (entry_key e).
Proof.
  rewrite <- keys_step_mem.
  destruct e as [k v|k v]; cbn [body_entry entry_key].
  - unfold body_attribute. destruct (dict_mem k (result st)) eqn:Hmem.
    + by intros [= <- _].
    + intros [= <- _]. cbn [result]. by rewrite dict_keys_set, Hmem.
  - unfold body_block_item. destruct (dict_mem k (result st)) eqn:Hmem.
    + case_bool_decide; [by intros [= <- _] |].
      destruct (dict_get k (result st)) as [[]|]; try done.
      intros [= <- _]. cbn [result]. by rewrite dict_keys_set, Hmem.
    + intros [= <- _]. cbn [result]. by rewrite dict_keys_set, Hmem.
Qed.

Lemma body_entries_keys (es : list entry) (st st' : body_state) (log log' : list string) :
  body_entries es st log = (Ok st', log') ->
  dict_keys (result st')
  = List.fold_left keys_step (List.map entry_key es) (dict_keys (result st)).
Proof.
  revert st log. induction es as [|e es IH]; intros st log; cbn [body_entries].
  - by intros [= <- _].
  - unfold bind. destruct (body_entry e st log) as [[st1|err] log1] eqn:E; [| done].
    intros H. cbn [List.map fold_left].
    rewrite (IH _ _ H). by rewrite (body_entry_keys _ _ _ _ _ E).
Qed.

Lemma keys_step_NoDup (keys acc : list string) :
  NoDup acc -> NoDup (List.fold_left keys_step keys acc).
Proof.
  revert acc. induction keys as [|k keys IH]; intros acc Hacc; [done |].
  cbn [fold_left]. apply IH. unfold keys_step. case_bool_decide as Hk; [done |].
  apply NoDup_app. split; [done |]. split; [| apply NoDup_singleton].
  intros x Hx ->%list_elem_of_singleton. done.
Qed.

(** The keys of the output of a body are pairwise distinct and stand in
    the order in which the children first use them. *)
Theorem body_key_order (args : list value) :
  forallb is_body_child args = true ->
  exists result log,
    body args [] = (Ok (VDict result), log)
    /\ dict_keys result = first_occurrences (List.map entry_key (entries args))
    /\ NoDup (dict_keys result).
Proof.
  intros Hok.
  destruct (body_entries_run (entries args) {| result := []; attributes := ∅ |} []
              body_inv_initial) as (st & log & Hrun & _ & _).
  exists (result st), log.
  assert (Hkeys : dict_keys (result st)
                  = first_occurrences (List.map entry_key (entries args))).
  { by rewrite (body_entries_keys _ _ _ _ _ Hrun). }
  split; [| split; [done |]].
  - unfold body, bind. by rewrite body_loop_entries, Hrun.
  - rewrite Hkeys. apply keys_step_NoDup. constructor.
Qed.

Lemma body_key_order_witness :
  exists result log,
    body [VDict [("b", VDict [])]; VAttribute "a" (VInt 1); VDict [("b", VDict [])];
          VAttribute "a" (VInt 2)] []
    = (Ok (VDict result), log)
    /\ dict_keys result
       = first_occurrences
           (List.map entry_key
              (entries [VDict [("b", VDict [])]; VAttribute "a" (VInt 1);
                        VDict [("b", VDict [])]; VAttribute "a" (VInt 2)]))
    /\ NoDup (dict_keys result).
Proof. apply body_key_order. reflexivity. Defined.

Lemma body_loop_app (args1 args2 : list value) (st : body_state) (log : list string) :
  body_loop (args1 ++ args2) st log = bind (body_loop args1 st) (body_loop args2) log.
Proof.
  revert st log. induction args1 as [|a args1 IH]; intros st log; [reflexivity |].
  cbn [app body_loop]. unfold bind.
  destruct (body_arg a st log) as [[st1|err] log1]; [| done].
  by rewrite IH.
Qed.

(** A child that is neither an attribute nor a dict, and is not
    filtered out, makes the body raise [AttributeError]; the warnings
    for the children before it are logged all the same. *)
Theorem body_raises_on_other_child (good rest : list value) (bad : value) :
  forallb is_body_child good = true ->
  is_body_child bad = false ->
  exists result log,
    body good [] = (Ok (VDict result), log)
    /\ body (good ++ bad :: rest) [] = (Raise AttributeError, log).
Proof.
  intros Hgood Hbad.
  destruct (body_entries_run (entries good) {| result := []; attributes := ∅ |} []
              body_inv_initial) as (st & log & Hrun & _ & _).
  rewrite <- body_loop_entries in Hrun by done.
  exists (result st), log. split.
  - unfold body, bind. by rewrite Hrun.
  - unfold body, bind, strip_new_line_tokens. rewrite List.filter_app.
    fold (strip_new_line_tokens good). rewrite body_loop_app. unfold bind. rewrite Hrun.
    cbn [List.filter].
    assert (Hkeep : negb (is_new_line_token bad) && negb (is_discard bad) = true).
    { destruct bad; try done. cbn [is_body_child is_new_line_token is_discard] in *.
      by rewrite Hbad. }
    rewrite Hkeep. cbn [body_loop]. unfold bind.
    by destruct bad.
Qed.

Lemma body_raises_on_other_child_witness :
  exists result log,
    body [VAttribute "a" (VInt 1); VAttribute "a" (VInt 2)] [] = (Ok (VDict result), log)
    /\ body ([VAttribute "a" (VInt 1); VAttribute "a" (VInt 2)]
             ++ VStr "text" :: [VAttribute "b" (VInt 3)]) []
       = (Raise AttributeError, log).
Proof. apply body_raises_on_other_child; reflexivity. Defined.

Lemma strip_keeps (args : list value) :
  Forall (fun arg => is_new_line_token arg = false /\ is_discard arg = false) args ->
  strip_new_line_tokens args = args.
Proof.
  unfold strip_new_line_tokens. induction 1 as [|a args [H1 H2] _ IH]; [done |].
  cbn [List.filter]. by rewrite H1, H2, IH.
Qed.

Lemma dict_get_app (key : string) (d1 d2 : dict) :
  dict_get key (d1 ++ d2)
  = match dict_get key d1 with Some v => Some v | None => dict_get key d2 end.
Proof.
  induction d1 as [|[k v] d1 IH]; [done |]. cbn [app dict_get].
  by case_bool_decide.
Qed.

Lemma dict_set_fresh (key : string) (v : value) (d : dict) :
  dict_get key d = None -> dict_set key v d = d ++ [(key, v)].
Proof.
  induction d as [|[k w] d IH]; [done |]. cbn [dict_get dict_set app].
  case_bool_decide as Hk; [done |]. intros Hget. by rewrite IH.
Qed.

Lemma body_loop_fresh_attributes (attrs : dict) (st : body_state) (log : list string) :
  NoDup (dict_keys attrs) ->
  (forall key, key ∈ dict_keys attrs -> dict_get key (result st) = None) ->
  exists st',
    body_loop (List.map (fun kv => VAttribute kv.1 kv.2) attrs) st log = (Ok st', log)
    /\ result st' = result st ++ attrs.
Proof.
  revert st. induction attrs as [|[k v] attrs IH]; intros st Hdistinct Hfresh.
  - exists st. by rewrite app_nil_r.
  - unfold dict_keys in *. cbn [fmap list_fmap fst] in *.
    apply NoDup_cons in Hdistinct as [Hk Hdistinct].
    assert (Hget : dict_get k (result st) = None) by apply Hfresh, list_elem_of_here.
    destruct (IH {| result := dict_set k v (result st);
                    attributes := {[k]} ∪ attributes st |} Hdistinct)
      as (st' & Hrun & Hres).
    { intros key Hin. cbn [result]. rewrite dict_get_set_ne by (by intros ->).
      by apply Hfresh, list_elem_of_further. }
    exists st'. cbn [List.map body_loop body_arg fst snd]. unfold bind, body_attribute, dict_mem.
    rewrite Hget. split; [done |].
    rewrite Hres. cbn [result]. rewrite dict_set_fresh by done.
    by rewrite <- app_assoc.
Qed.

(** The children that the attribute rule makes from pairs with distinct
    keys give a body that is exactly these attributes, in their order,
    each key without its quotes and each value wrapped or unquoted, and
    no warning. *)
Theorem body_of_attributes py_repr (pairs : list (string * value))
    (children : list value) :
  Forall2 (fun kv child => attribute py_repr [VStr kv.1; kv.2] = Ok child) pairs children ->
  NoDup (List.map (fun kv => dequote kv.1) pairs) ->
  body children []
  = (Ok (VDict (List.map (fun kv => (dequote kv.1, to_string_dollar kv.2)) pairs)), []).
Proof.
  intros Hchildren Hdistinct.
  set (attrs := List.map (fun kv => (dequote kv.1, to_string_dollar kv.2)) pairs).
  assert (Hmap : children = List.map (fun kv => VAttribute kv.1 kv.2) attrs).
  { unfold attrs. clear Hdistinct attrs.
    induction Hchildren as [|[k v] child pairs children Hchild _ IH]; [done |].
    cbn [List.map fst snd] in *. rewrite <- IH.
    unfold attribute in Hchild. cbn in Hchild. unfold dequote.
    injection Hchild as <-. done. }
  destruct (body_loop_fresh_attributes attrs {| result := []; attributes := ∅ |} [])
    as (st & Hrun & Hres).
  { unfold dict_keys, attrs. by rewrite <- list_fmap_compose. }
  { done. }
  unfold body, bind. rewrite Hmap, strip_keeps, Hrun; [by rewrite Hres |].
  apply Forall_forall. intros arg Hin%list_elem_of_In.
  by apply in_map_iff in Hin as (kv & <- & _).
Qed.

Lemma body_of_attributes_witness :
  body [VAttribute "a" (VStr "${x.y}"); VAttribute "b" (VStr "lit")] []
  = (Ok (VDict (List.map (fun kv => (dequote kv.1, to_string_dollar kv.2))
                  [("a", VStr "x.y");
                   (Str.quote +:+ "b" +:+ Str.quote, VStr (Str.quote +:+ "lit" +:+ Str.quote))])),
     []).
Proof.
  apply (body_of_attributes (fun _ => EmptyString)
           [("a", VStr "x.y");
            (Str.quote +:+ "b" +:+ Str.quote, VStr (Str.quote +:+ "lit" +:+ Str.quote))]).
  - repeat constructor.
  - vm_compute. apply NoDup_cons_2; [| apply NoDup_singleton].
    intros H%list_elem_of_singleton. discriminate H.
Defined.

Lemma no_attribute_first (key : string) (es : list entry) :
  attribute_keys es = [] ->
  match first_entry key es with Some (EAttr _ _) => False | _ => True end.
Proof.
  induction es as [|e es IH]; [done |]. cbn [first_entry attribute_keys].
  destruct e as [k v|k v]; [done |]. intros H. case_bool_decide; [done | by apply IH].
Qed.

Lemma warnings_from_blocks (seen es : list entry) :
  attribute_keys seen = [] -> attribute_keys es = [] -> warnings_from seen es = [].
Proof.
  revert seen. induction es as [|e es IH]; intros seen Hseen Hes; [done |].
  destruct e as [k v|k v]; [done |]. cbn [attribute_keys] in Hes.
  cbn [warnings_from]. rewrite IH; [| by rewrite attribute_keys_app, Hseen | done].
  rewrite app_nil_r. unfold warning_for. cbn [entry_key].
  pose proof (no_attribute_first k seen Hseen) as Hfirst.
  by destruct (first_entry k seen) as [[]|].
Qed.

Lemma key_run_blocks_only (key : string) (es : list entry) :
  attribute_keys es = [] ->
  stored (key_run key es empty_view)
  = match block_values key es with [] => None | vs => Some (VList vs) end.
Proof.
  intros Hes. destruct (decide (key ∈ List.map entry_key es)) as [Hin|Hnot].
  - apply first_entry_split in Hin as (pre & e & post & -> & He & Hpre).
    destruct e as [k v|k v]; cbn [entry_key] in He; subst k.
    + rewrite attribute_keys_app in Hes. by destruct (attribute_keys pre).
    + rewrite key_run_block_first by done.
      rewrite block_values_app, (block_values_absent key pre) by done.
      cbn [app block_values stored]. by rewrite bool_decide_eq_true_2.
  - by rewrite key_run_absent, block_values_absent.
Qed.

Lemma block_result (meta : Meta) (type : string) (labels : list string) (block_body : value) :
  block false meta (List.map VStr (type :: labels) ++ [block_body])
  = Ok (VDict [(dequote type, nest (List.map dequote labels) block_body)]).
Proof. unfold block. rewrite unpack_last_snoc. apply (wrap_labels_nest (type :: labels)). Qed.

(** The children that the block rule makes give a body without
    warnings in which every block type holds the list of the blocks of
    that type, each one its body inside its labels, in source order,
    whether the labels of two blocks are equal or not. *)
Theorem body_of_blocks (meta : Meta) (blocks : list (string * list string * value))
    (children : list value) :
  Forall2 (fun b child =>
             block false meta (List.map VStr (b.1.1 :: b.1.2) ++ [b.2]) = Ok child)
    blocks children ->
  exists result,
    body children [] = (Ok (VDict result), [])
    /\ forall type,
         dict_get type result
         = match labelled_bodies type blocks with
           | [] => None
           | bodies => Some (VList bodies)
           end.
Proof.
  intros Hchildren.
  set (es := List.map (fun b => EBlock (dequote b.1.1)
                                  (nest (List.map dequote b.1.2) b.2)) blocks).
  assert (Hshape : forallb is_body_child children = true /\ entries children = es).
  { unfold es. clear es.
    induction Hchildren as [|[[t ls] b] child blocks children Hchild _ [IH1 IH2]]; [done |].
    cbn [fst snd] in Hchild. rewrite block_result in Hchild. injection Hchild as <-.
    split; [done |]. unfold entries in *. cbn [List.map fst snd]. by rewrite <- IH2. }
  destruct Hshape as [Hok Hes].
  assert (Hnoattr : attribute_keys es = []).
  { unfold es. clear. by induction blocks as [|b blocks IH]. }
  destruct (body_log children Hok) as [result Hbody].
  destruct (body_views children Hok) as (st & log & Hbody' & Hview).
  rewrite Hbody in Hbody'. injection Hbody' as -> _.
  exists (result st). rewrite Hbody, Hes, warnings_from_blocks by done.
  split; [done |]. intros type.
  specialize (Hview type). apply view_stored in Hview as (-> & _).
  rewrite Hes, key_run_blocks_only by done.
  replace (block_values type es) with (labelled_bodies type blocks); [done |].
  unfold es, labelled_bodies. clear.
  induction blocks as [|[[t ls] b] blocks IH]; [done |].
  cbn [List.map List.filter block_values fst snd].
  case_bool_decide; [cbn [List.map fst snd]; by rewrite IH | done].
Qed.

Lemma body_of_blocks_witness :
  exists result,
    body [VDict [("resource", VDict [("a", VDict [])])];
          VDict [("resource", VDict [("a", VDict [("x", VInt 1)])])]] []
    = (Ok (VDict result), [])
    /\ forall type,
         dict_get type result
         = match labelled_bodies type
                   [("resource", ["a"], VDict []);
                    ("resource", [Str.quote +:+ "a" +:+ Str.quote], VDict [("x", VInt 1)])]
           with
           | [] => None
           | bodies => Some (VList bodies)
           end.
Proof.
  apply (body_of_blocks {| line := 1; end_line := 1 |}
           [("resource", ["a"], VDict []);
            ("resource", [Str.quote +:+ "a" +:+ Str.quote], VDict [("x", VInt 1)])]).
  repeat constructor.
Defined.

(** ** Object literals *)

Lemma dict_get_update_items (key : string) (items d : dict) :
  dict_get key (update_items d items)
  = match dict_get key (List.rev items) with
    | Some v => Some v
    | None => dict_get key d
    end.
Proof.
  unfold update_items. revert d. induction items as [|[k v] items IH]; intros d; [done |].
  cbn [fold_left List.rev fst snd]. rewrite IH, dict_get_app.
  destruct (dict_get key (List.rev items)); [done |]. cbn [dict_get].
  case_bool_decide as Hk.
  - subst k. apply dict_get_set_eq.
  - by apply dict_get_set_ne.
Qed.

Lemma dict_keys_update_items (items d : dict) :
  dict_keys (update_items d items)
  = List.fold_left keys_step (dict_keys items) (dict_keys d).
Proof.
  unfold update_items. revert d. induction items as [|[k v] items IH]; intros d; [done |].
  cbn [fold_left fst snd]. rewrite IH. unfold dict_keys at 2. cbn [fmap list_fmap fst fold_left].
  by rewrite dict_keys_set, keys_step_mem.
Qed.

Lemma object_loop_dicts (ds : list dict) (d : dict) :
  object_loop (List.map VDict ds) d = Some (Ok (update_items d (concat ds))).
Proof.
  revert d. induction ds as [|items ds IH]; intros d; [done |].
  cbn [List.map object_loop dict_update concat]. rewrite IH.
  unfold update_items. by rewrite fold_left_app.
Qed.

(** An object literal made of dicts, such as the one-item dicts of the
    object-element rule, binds every key to the value of its last item;
    its keys stand in the order of their first items. *)
Theorem object_last_wins (ds : list dict) :
  exists result,
    object (List.map VDict ds) = Some (Ok (VDict result))
    /\ (forall key, dict_get key result = dict_get key (List.rev (concat ds)))
    /\ dict_keys result = first_occurrences (dict_keys (concat ds))
    /\ (forall key v,
          object_elem [VStr key; v] = Ok (VDict [(dequote key, to_string_dollar v)])).
Proof.
  exists (update_items [] (concat ds)). split; [| split; [| split]].
  - unfold object. rewrite strip_keeps, object_loop_dicts; [done |].
    apply Forall_forall. intros arg Hin%list_elem_of_In.
    by apply in_map_iff in Hin as (items & <- & _).
  - intros key. rewrite dict_get_update_items.
    by destruct (dict_get key (List.rev (concat ds))).
  - apply dict_keys_update_items.
  - intros key v. unfold object_elem. cbn [arg_at lookup list_lookup].
    by rewrite strip_quotes_label.
Qed.

(** ** Expressions that start and end with a quote *)

Lemma is_new_line_token_quoted (s : string) :
  is_new_line_token (VStr (Str.quote +:+ s)) = false.
Proof. cbn [is_new_line_token]. by case_bool_decide. Qed.

(** [to_string_dollar] looks at the first and the last character only:
    the text that the operator rules rebuild from two quoted operands is
    taken for one quoted literal, so it loses its outer quotes and is
    not wrapped. *)
Theorem quoted_operands_lose_outer_quotes py_repr (a op b : string) :
  op <> Str.nl ->
  to_string_dollar
    (binary_op py_repr
       [VStr (Str.quote +:+ a +:+ Str.quote);
        binary_term py_repr [VStr op; VStr (Str.quote +:+ b +:+ Str.quote)]])
  = VStr (a +:+ Str.quote +:+ " " +:+ op +:+ " " +:+ Str.quote +:+ b).
Proof.
  intros Hop. unfold binary_term, strip_new_line_tokens. cbn [List.filter].
  rewrite is_new_line_token_quoted.
  assert (is_new_line_token (VStr op) = false) as ->
    by (cbn [is_new_line_token]; by apply bool_decide_eq_false_2).
  cbn [negb andb is_discard List.filter List.map py_str Str.join].
  unfold binary_op. cbn [List.map py_str Str.join].
  replace ((Str.quote +:+ a +:+ Str.quote) +:+ " " +:+ op +:+ " " +:+ Str.quote +:+ b +:+ Str.quote)
    with (Str.quote +:+ (a +:+ Str.quote +:+ " " +:+ op +:+ " " +:+ Str.quote +:+ b) +:+ Str.quote)
    by (by rewrite !app_assoc_str).
  unfold to_string_dollar. rewrite is_quoted_app. f_equal. apply slice_inner.
Qed.

Lemma quoted_operands_lose_outer_quotes_witness :
  to_string_dollar
    (binary_op (fun _ => EmptyString)
       [VStr (Str.quote +:+ "a" +:+ Str.quote);
        binary_term (fun _ => EmptyString) [VStr "=="; VStr (Str.quote +:+ "b" +:+ Str.quote)]])
  = VStr ("a" +:+ Str.quote +:+ " " +:+ "==" +:+ " " +:+ Str.quote +:+ "b").
Proof.
  apply (quoted_operands_lose_outer_quotes (fun _ => EmptyString) "a" "==" "b").
  discriminate.
Defined.

(** ** Rebuilt expressions *)

Lemma is_new_line_token_str (s : string) :
  s <> Str.nl -> is_new_line_token (VStr s) = false.
Proof. intros H. cbn [is_new_line_token]. by apply bool_decide_eq_false_2. Qed.

(** A call is rebuilt from the name and the list made by the arguments
    rule: the arguments are printed with a comma and a space between
    them, a [Discard] among them leaves no trace, and a call without an
    arguments child has empty parentheses. *)
Theorem function_call_arguments py_repr (name : string) :
  name <> Str.nl ->
  (forall xs,
     function_call py_repr [VStr name; arguments xs]
     = Ok (VStr (name +:+ "(" +:+
                 Str.join ", "
                   (List.map (py_str py_repr)
                      (List.filter (fun arg => negb (is_discard arg)) xs)) +:+ ")")))
  /\ (forall xs ys,
        function_call py_repr [VStr name; arguments (xs ++ VDiscard :: ys)]
        = function_call py_repr [VStr name; arguments (xs ++ ys)])
  /\ function_call py_repr [VStr name] = Ok (VStr (name +:+ "()")).
Proof.
  intros Hname.
  assert (Hcall : forall xs,
             function_call py_repr [VStr name; arguments xs]
             = Ok (VStr (name +:+ "(" +:+
                         Str.join ", "
                           (List.map (py_str py_repr)
                              (List.filter (fun arg => negb (is_discard arg)) xs)) +:+ ")"))).
  { intros xs. unfold function_call, arguments, strip_new_line_tokens.
    cbn [List.filter]. rewrite is_new_line_token_str by done. reflexivity. }
  split; [done |]. split.
  - intros xs ys. rewrite !Hcall, !List.filter_app. reflexivity.
  - unfold function_call, strip_new_line_tokens.
    cbn [List.filter]. rewrite is_new_line_token_str by done. reflexivity.
Qed.

Lemma function_call_arguments_witness :
  function_call (fun _ => EmptyString)
    [VStr "max"; arguments ([VInt 1] ++ VDiscard :: [VStr "x"])]
  = function_call (fun _ => EmptyString) [VStr "max"; arguments ([VInt 1] ++ [VStr "x"])].
Proof.
  destruct (function_call_arguments (fun _ => EmptyString) "max") as (_ & H & _);
    [discriminate | apply H].
Defined.

Lemma is_quoted_unquoted_head (s t : string) :
  Str.startswith Str.quote s = false -> s <> EmptyString -> is_quoted (s +:+ t) = false.
Proof.
  intros Hs Hne. destruct s as [|c s]; [done |].
  unfold is_quoted, Str.startswith in *. rewrite app_cons_str.
  cbn [Str.quote String.prefix] in *.
  destruct (ascii_dec Str.dquote c); [| done].
  by destruct s.
Qed.

(** An index and an attribute access after a base that does not start
    with a quote are rebuilt as the source text, and as an attribute
    value the text is wrapped as an interpolation. *)
Theorem postfix_chain_is_wrapped py_repr (key base idx name : string) :
  Str.startswith Str.quote base = false ->
  base <> EmptyString -> base <> Str.nl -> idx <> Str.nl ->
  exists index_text indexed attr_text accessed,
    index py_repr [VStr idx] = Ok index_text
    /\ index_expr_term py_repr [VStr base; index_text] = Ok indexed
    /\ get_attr py_repr [VStr name] = Ok attr_text
    /\ get_attr_expr_term py_repr [indexed; attr_text] = Ok accessed
    /\ attribute py_repr [VStr key; accessed]
       = Ok (VAttribute (dequote key)
               (VStr ("${" +:+ base +:+ "[" +:+ idx +:+ "]" +:+ "." +:+ name +:+ "}"))).
Proof.
  intros Hquote Hne Hbase Hidx. eexists _, _, _, _.
  split; [| split; [| split; [| split]]].
  - unfold index, strip_new_line_tokens. cbn [List.filter].
    rewrite is_new_line_token_str by done. reflexivity.
  - unfold index_expr_term, strip_new_line_tokens. cbn [List.filter].
    rewrite is_new_line_token_str by done.
    rewrite is_new_line_token_str by (by unfold Str.nl).
    reflexivity.
  - reflexivity.
  - reflexivity.
  - unfold attribute. cbn [arg_at lookup list_lookup py_str]. fold (dequote key).
    unfold to_string_dollar. rewrite app_assoc_str.
    rewrite is_quoted_unquoted_head by done.
    by rewrite !app_assoc_str.
Qed.

Lemma postfix_chain_is_wrapped_witness :
  exists index_text indexed attr_text accessed,
    index (fun _ => EmptyString) [VStr "0"] = Ok index_text
    /\ index_expr_term (fun _ => EmptyString) [VStr "foo"; index_text] = Ok indexed
    /\ get_attr (fun _ => EmptyString) [VStr "bar"] = Ok attr_text
    /\ get_attr_expr_term (fun _ => EmptyString) [indexed; attr_text] = Ok accessed
    /\ attribute (fun _ => EmptyString) [VStr "x"; accessed]
       = Ok (VAttribute (dequote "x")
               (VStr ("${" +:+ "foo" +:+ "[" +:+ "0" +:+ "]" +:+ "." +:+ "bar" +:+ "}"))).
Proof.
  apply (postfix_chain_is_wrapped (fun _ => EmptyString) "x" "foo" "0" "bar");
    [reflexivity | discriminate | discriminate | discriminate].
Defined.

Lemma list_slice_short {A : Type} (l : list A) :
  (length l <= 2)%nat -> list_slice 1 (-1) l = [].
Proof.
  intros H. destruct l as [|a [|b [|c l]]]; [done | done | done |].
  simpl in H. lia.
Qed.

(** For-expressions never raise: with two children or fewer after
    filtering there is nothing between the delimiters. *)
Theorem for_expr_without_inner_children py_repr (args : list value) :
  (length (strip_new_line_tokens args) <= 2)%nat ->
  for_tuple_expr py_repr args = VStr "[]"
  /\ for_object_expr py_repr args = VStr "{}".
Proof.
  intros H. unfold for_tuple_expr, for_object_expr. by rewrite list_slice_short.
Qed.

Lemma for_expr_without_inner_children_witness :
  for_tuple_expr (fun _ => EmptyString) [VStr "["; VStr Str.nl; VDiscard; VStr "]"] = VStr "[]"
  /\ for_object_expr (fun _ => EmptyString) [VStr "["; VStr Str.nl; VDiscard; VStr "]"]
     = VStr "{}".
Proof.
  apply (for_expr_without_inner_children (fun _ => EmptyString)). vm_compute. lia.
Defined.

(** ** Missing children *)

(** The rules that index their children raise [IndexError] exactly when
    too few children are left: after filtering where the rule filters,
    and for a parenthesis without an expression in [expr_term]. *)
Theorem missing_children_raise_index_error py_repr (args : list value) :
  (start args = Raise IndexError <-> strip_new_line_tokens args = [])
  /\ (expr_term args = Raise IndexError
      <-> strip_new_line_tokens args = [] \/ strip_new_line_tokens args = [VStr "("])
  /\ (index py_repr args = Raise IndexError <-> strip_new_line_tokens args = [])
  /\ (index_expr_term py_repr args = Raise IndexError
      <-> (length (strip_new_line_tokens args) < 2)%nat)
  /\ (conditional py_repr args = Raise IndexError
      <-> (length (strip_new_line_tokens args) < 3)%nat)
  /\ (function_call py_repr args = Raise IndexError <-> strip_new_line_tokens args = [])
  /\ (get_attr_expr_term py_repr args = Raise IndexError <-> (length args < 2)%nat)
  /\ (attribute py_repr args = Raise IndexError <-> (length args < 2)%nat)
  /\ (object_elem args = Raise IndexError <-> (length args < 2)%nat)
  /\ (get_attr py_repr args = Raise IndexError <-> args = [])
  /\ (binary_operator py_repr args = Raise IndexError <-> args = [])
  /\ (identifier py_repr args = Raise IndexError <-> args = []).
Proof.
  assert (Hparen : forall v s, str_eq v s = true -> v = VStr s).
  { intros v lit. destruct v; cbn [str_eq]; try done. by intros ->%bool_decide_eq_true. }
  unfold start, expr_term, index, index_expr_term, conditional, function_call,
    get_attr_expr_term, concat_two, attribute, object_elem, get_attr, binary_operator,
    identifier.
  split; [| split; [| split; [| split; [| split; [| split]]]]].
  - destruct (strip_new_line_tokens args); cbn; by split.
  - destruct (strip_new_line_tokens args) as [|a0 [|a1 rest]]; cbn.
    + split; [by left | done].
    + split.
      * intros H. right.
        destruct (str_eq a0 "true"); [done |]. destruct (str_eq a0 "false"); [done |].
        destruct (str_eq a0 "null"); [done |].
        destruct (str_eq a0 "(") eqn:E; [| done]. by rewrite (Hparen _ _ E).
      * by intros [H|[= ->]].
    + split; [| by intros [H|H]].
      destruct (str_eq a0 "true"); [done |]. destruct (str_eq a0 "false"); [done |].
      destruct (str_eq a0 "null"); [done |]. by destruct (str_eq a0 "(").
  - destruct (strip_new_line_tokens args); cbn; by split.
  - destruct (strip_new_line_tokens args) as [|a0 [|a1 rest]]; cbn; split; try done; lia.
  - destruct (strip_new_line_tokens args) as [|a0 [|a1 [|a2 rest]]]; cbn; split;
      try done; lia.
  - destruct (strip_new_line_tokens args) as [|a0 [|a1 rest]]; cbn; [by split | by split |].
    split; [| done]. by destruct a1.
  - repeat split; destruct args as [|a0 [|a1 rest]]; cbn; try done; try lia.
    by destruct (strip_quotes a0).
Qed.
